(** * InvokeFilePanelController: a shallow embedding

    The controller of the invoke-file editor panel keeps the view state
    of an invocation file (a JSON array of contract-call steps) in step
    with the document, runs the file through the external runner and
    tracks the submitted transactions.  This development embeds the
    handlers of [InvokeFilePanelController] as Rocq functions and proves
    properties of them; the commands of [NeoExpressCommands] follow in a
    module of their own.

    Conventions of the embedding:
    - JavaScript values typed [any] are terms of [JSValue]; numbers are
      restricted to integers ([Z]);
    - arrays are lists, indices are [Z] (what a request can carry);
    - JavaScript objects used as dictionaries are association lists in
      insertion order, the order [Object.keys] enumerates (the keys here
      are contract hashes and paths, never array indices, which
      JavaScript would enumerate first);
    - objects that are shared and mutated live in an explicit [Heap];
    - everything the host supplies (path library, parser, RPC node,
      runner, dialogs) is a field of [Host], [Connection] or [World]. *)

From Stdlib Require Import ZArith Lia Ascii String.
From Stdlib Require DecimalNat DecimalString.
From stdpp Require Import base option list strings.

Open Scope Z_scope.
Local Set Warnings "-register-all".

(** ** JavaScript values *)

Inductive JSValue : Type :=
  | JSUndefined
  | JSNull
  | JSBool (b : bool)
  | JSNumber (z : Z)
  | JSString (s : string)
  | JSArray (items : list JSValue)
  | JSObject (fields : list (string * JSValue)).

(** ToBoolean. *)
Definition truthy (v : JSValue) : bool :=
  match v with
  | JSUndefined | JSNull => false
  | JSBool b => b
  | JSNumber z => negb (z =? 0)
  | JSString s => negb (String.eqb s EmptyString)
  | JSArray _ | JSObject _ => true
  end.


Definition isObject (v : JSValue) : bool :=
  match v with JSObject _ => true | _ => false end.

(** Lookup in a dictionary kept in insertion order. *)
Fixpoint dict_get {V : Type} (k : string) (d : list (string * V)) : option V :=
  match d with
  | [] => None
  | (k', v) :: d' => if String.eqb k k' then Some v else dict_get k d'
  end.

(** Assignment [d[k] = v]: overwrite in place, or append a new key. *)
Fixpoint dict_set {V : Type} (k : string) (v : V) (d : list (string * V))
  : list (string * V) :=
  match d with
  | [] => [(k, v)]
  | (k', v') :: d' =>
      if String.eqb k k' then (k, v) :: d' else (k', v') :: dict_set k v d'
  end.

(** [Object.keys]. *)
Definition dict_keys {V : Type} (d : list (string * V)) : list string :=
  map fst d.

(** Property read [v.name], for the names the controller reads
    ([contract], [vmstate], [confirmations]): a [TypeError] ([None]) on
    [undefined] and [null], the field of an object, and [undefined] on
    every other value, none of which has such a property. *)
Definition get_prop (v : JSValue) (name : string) : option JSValue :=
  match v with
  | JSUndefined | JSNull => None
  | JSObject fields => Some (default JSUndefined (dict_get name fields))
  | _ => Some JSUndefined
  end.

(** ** Arrays *)

(** [arr.filter((_, i) => p i)], the index counted from [i]. *)
Fixpoint filter_from {A : Type} (p : Z -> bool) (i : Z) (arr : list A) : list A :=
  match arr with
  | [] => []
  | x :: arr' =>
      if p i then x :: filter_from p (i + 1) arr' else filter_from p (i + 1) arr'
  end.

Definition filter_index {A : Type} (p : Z -> bool) (arr : list A) : list A :=
  filter_from p 0 arr.

(** [arr[i]]: [undefined] outside the array. *)
Definition index (arr : list JSValue) (i : Z) : JSValue :=
  if i <? 0 then JSUndefined else default JSUndefined (arr !! Z.to_nat i).

(** ** The [moveStep] request (the fourth branch of [onRequest])

    The function computes the array handed to [applyEdit]. *)
Definition moveStep (fileContents : list JSValue) (from to : Z) : list JSValue :=
  let oldFileContents := fileContents in
  let newFileContents := filter_index (fun i => negb (i =? from)) oldFileContents in
  let to := if to >? from then to - 1 else to in
  filter_index (fun i => i <? to) newFileContents
    ++ [index oldFileContents from]
    ++ filter_index (fun i => to <=? i) newFileContents.

(** The specification's reading of the move: delete, then insert. *)
Definition remove_at {A : Type} (i : nat) (l : list A) : list A :=
  take i l ++ drop (S i) l.

Definition insert_at {A : Type} (i : nat) (x : A) (l : list A) : list A :=
  take i l ++ x :: drop i l.

(** ** Strings: white space, [trim] and the transaction-id pattern

    Strings are sequences of 8-bit characters; [is_space] is the part of
    the class [\s] (and of what [trim] strips) that lies in ASCII. *)

Definition dquote : string := String (ascii_of_nat 34) EmptyString.

Definition chars (s : string) : list ascii := list_ascii_of_string s.

Definition is_space (c : ascii) : bool :=
  let n := nat_of_ascii c in
  ((9 <=? n) && (n <=? 13) || (n =? 32))%nat.

(** [[0-9a-f]] under the [i] flag. *)
Definition is_hex (c : ascii) : bool :=
  let n := nat_of_ascii c in
  ((48 <=? n) && (n <=? 57) || (97 <=? n) && (n <=? 102)
   || (65 <=? n) && (n <=? 70))%nat.

Fixpoint trim_start (s : list ascii) : list ascii :=
  match s with
  | c :: s' => if is_space c then trim_start s' else s
  | [] => []
  end.

Definition trim_chars (s : list ascii) : list ascii :=
  rev (trim_start (rev (trim_start s))).

(** [s.trim()]. *)
Definition trim (s : string) : string :=
  string_of_list_ascii (trim_chars (chars s)).

(** The longest run of hex digits at the head of [s], and what follows. *)
Fixpoint span_hex (s : list ascii) : list ascii * list ascii :=
  match s with
  | c :: s' =>
      if is_hex c then let '(ds, rest) := span_hex s' in (c :: ds, rest)
      else ([], s)
  | [] => ([], [])
  end.

(** One attempt of [/\s0x[0-9a-f]+\s/i] at the head of [s]: the matched
    text.  The greedy [[0-9a-f]+] takes the whole run of digits; giving
    digits back cannot help, the character after a shorter run being a
    digit and not white space. *)
Definition match_txid_at (s : list ascii) : option (list ascii) :=
  match s with
  | w :: z :: x :: s' =>
      if is_space w && Ascii.eqb z "0" && (Ascii.eqb x "x" || Ascii.eqb x "X")
      then
        match span_hex s' with
        | (d :: ds, w' :: _) =>
            if is_space w' then Some (w :: z :: x :: d :: ds ++ [w']) else None
        | _ => None
        end
      else None
  | _ => None
  end.

(** [str.matchAll(/\s0x[0-9a-f]+\s/gi)]: the matches from left to right,
    the search resuming after the end of the previous match.  [skip]
    counts the characters of the last match still to be passed over. *)
Fixpoint matchAll_from (skip : nat) (s : list ascii) : list (list ascii) :=
  match s with
  | [] => []
  | _ :: s' =>
      match skip with
      | S k => matchAll_from k s'
      | O =>
          match match_txid_at s with
          | Some m => m :: matchAll_from (length m - 1) s'
          | None => matchAll_from 0 s'
          end
      end
  end.

(** The transaction ids of a runner message, in the order [runFile]
    meets them: [txidMatch[0].trim()] for each match in
    [` ${message} `]. *)
Definition extract_txids (message : string) : list string :=
  map (fun m => string_of_list_ascii (trim_chars m))
      (matchAll_from 0 (chars (" " ++ message ++ " ")%string)).


(** ** What the host supplies

    [path] is Node's module; [dedupeAndSort] and [JSONC] are modules of
    the extension that this file only imports.  They are parameters of
    the development. *)
Class Host := {
  path_dirname : string -> string;
  path_basename : string -> string;
  path_isAbsolute : string -> bool;
  path_relative : string -> string -> string;
  dedupeAndSort : list string -> list string;
  (** [JSONC.parse]: [None] when it throws. *)
  JSONC_parse : string -> option JSValue;
}.

(** The JSON of a contract's state, of which the controller reads
    [manifest.abi.hash]. *)
Record ContractManifest := {
  abi_hash : string;
  abi_methods : list string;
}.

(** The RPC client of a connection, for the duration of one handler:
    [None] is a rejected promise (or a throwing [toJson]). *)
Record RpcClient := {
  getRawTransaction : string -> bool -> option JSValue;
  getContractState : string -> option ContractManifest;
}.

Record BlockchainIdentifier := {
  blockchainType : string;
  name : string;
  configPath : string;
  (** [Object.keys(getWalletAddresses())] *)
  walletNames : list string;
}.

Record Connection := {
  blockchainIdentifier : BlockchainIdentifier;
  rpcClient : option RpcClient;
}.

(** Calls that leave the controller, in the order they are made. *)
Inductive Event :=
  | EvGetRawTransaction (txid : string) (verbose : bool)
  | EvGetContractState (contractHash : string)
  | EvConnect
  | EvMultipleChoice (placeHolder : string) (items : list string)
  | EvDocumentSave
  | EvRunSync (args : list string)
  | EvShowErrorMessage (message : string)
  | EvShowWarningMessage (message : string).

(** The result of running a handler: it returns, it throws (the promise
    is rejected), or the fuel given to the model ran out.  A handler that
    throws leaves no controller behind in the model; the properties below
    are about handlers that return. *)
Inductive Outcome (A : Type) :=
  | Returned (a : A)
  | Thrown
  | OutOfFuel.
Arguments Returned {A} a.
Arguments Thrown {A}.
Arguments OutOfFuel {A}.

Definition obind {A B : Type} (m : Outcome A) (k : A -> Outcome B) : Outcome B :=
  match m with
  | Returned a => k a
  | Thrown => Thrown
  | OutOfFuel => OutOfFuel
  end.

#[global] Instance Outcome_bind : MBind Outcome := fun A B k m => obind m k.

(** ** Data model *)

Inductive TransactionStatus := pending | ok | error.

Record RecentTransaction := {
  txid : string;
  blockchain : string;
  (** [JSUndefined] while the property is absent *)
  tx : JSValue;
  state : TransactionStatus;
}.

(** ** The store of shared objects

    [AutoCompleteData] objects hold references to three dictionaries. *)
Abbreviation loc := nat.

Inductive Obj :=
  | ObjData (contractPaths contractHashes contractManifests : loc)
  | ObjPaths (d : list (string * list string))
  | ObjHashes (d : list (string * option string))
  | ObjManifests (d : list (string * ContractManifest)).

Abbreviation Heap := (list Obj).

(** A fresh object. *)
Definition alloc (o : Obj) (h : Heap) : loc * Heap := (length h, h ++ [o]).

(** Reads through a reference; a missing or ill-typed object is the
    [TypeError] the access would raise. *)
Definition read_data (h : Heap) (l : loc) : Outcome (loc * loc * loc) :=
  match h !! l with
  | Some (ObjData p hs m) => Returned (p, hs, m)
  | _ => Thrown
  end.

Definition read_paths (h : Heap) (l : loc) : Outcome (list (string * list string)) :=
  match h !! l with Some (ObjPaths d) => Returned d | _ => Thrown end.

Definition read_hashes (h : Heap) (l : loc) : Outcome (list (string * option string)) :=
  match h !! l with Some (ObjHashes d) => Returned d | _ => Thrown end.

Definition read_manifests (h : Heap) (l : loc)
  : Outcome (list (string * ContractManifest)) :=
  match h !! l with Some (ObjManifests d) => Returned d | _ => Thrown end.

Record InvokeFileViewState := {
  fileContents : list JSValue;
  autoCompleteData : loc;
  errorText : string;
  recentTransactions : list RecentTransaction;
  collapseTransactions : bool;
  selectedTransactionId : option string;
}.

Record Document := {
  fsPath : string;
  (** [getText()]: [None] when it throws *)
  getText : option string;
}.

Record Controller := {
  viewState : InvokeFileViewState;
  isClosed : bool;
  document : Document;
  (** [activeConnection.connection] *)
  activeConnection : option Connection;
  (** [autoComplete.data] *)
  autoComplete : loc;
  heap : Heap;
  trace : list Event;
}.

Definition MAX_RECENT_TXS : nat := 10.

(** Modelled from the spec: [updateViewState] and [isClosed] belong to
    [PanelControllerBase], which is not among the sources at hand.  The
    specification has every handler replace the fields it names in the
    view state and publish the whole as one snapshot: the fields given
    are merged into the view state (the posting to the panel is left
    out). *)
Definition updateViewState (f : InvokeFileViewState -> InvokeFileViewState)
  (c : Controller) : Controller :=
  {| viewState := f (viewState c);
     isClosed := isClosed c;
     document := document c;
     activeConnection := activeConnection c;
     autoComplete := autoComplete c;
     heap := heap c;
     trace := trace c |}.

Definition set_fileContents_errorText (fc : list JSValue) (e : string)
  (v : InvokeFileViewState) : InvokeFileViewState :=
  {| fileContents := fc;
     autoCompleteData := autoCompleteData v;
     errorText := e;
     recentTransactions := recentTransactions v;
     collapseTransactions := collapseTransactions v;
     selectedTransactionId := selectedTransactionId v |}.

Definition set_errorText (e : string) (v : InvokeFileViewState)
  : InvokeFileViewState :=
  set_fileContents_errorText (fileContents v) e v.

Definition set_recentTransactions (txs : list RecentTransaction)
  (v : InvokeFileViewState) : InvokeFileViewState :=
  {| fileContents := fileContents v;
     autoCompleteData := autoCompleteData v;
     errorText := errorText v;
     recentTransactions := txs;
     collapseTransactions := collapseTransactions v;
     selectedTransactionId := selectedTransactionId v |}.

Definition set_autoCompleteData_recentTransactions (d : loc)
  (txs : list RecentTransaction) (v : InvokeFileViewState) : InvokeFileViewState :=
  {| fileContents := fileContents v;
     autoCompleteData := d;
     errorText := errorText v;
     recentTransactions := txs;
     collapseTransactions := collapseTransactions v;
     selectedTransactionId := selectedTransactionId v |}.

Definition set_collapseTransactions (b : bool) (v : InvokeFileViewState)
  : InvokeFileViewState :=
  {| fileContents := fileContents v;
     autoCompleteData := autoCompleteData v;
     errorText := errorText v;
     recentTransactions := recentTransactions v;
     collapseTransactions := b;
     selectedTransactionId := selectedTransactionId v |}.

Definition with_heap (h : Heap) (c : Controller) : Controller :=
  {| viewState := viewState c;
     isClosed := isClosed c;
     document := document c;
     activeConnection := activeConnection c;
     autoComplete := autoComplete c;
     heap := h;
     trace := trace c |}.

Definition with_connection (conn : option Connection) (c : Controller) : Controller :=
  {| viewState := viewState c;
     isClosed := isClosed c;
     document := document c;
     activeConnection := conn;
     autoComplete := autoComplete c;
     heap := heap c;
     trace := trace c |}.

Definition emit (evs : list Event) (c : Controller) : Controller :=
  {| viewState := viewState c;
     isClosed := isClosed c;
     document := document c;
     activeConnection := activeConnection c;
     autoComplete := autoComplete c;
     heap := heap c;
     trace := trace c ++ evs |}.

(** ** [periodicViewStateUpdate]: the transactions *)

(** The guard [_.tx && (_.tx as any).confirmations]. *)
Definition has_confirmations (t : RecentTransaction) : bool :=
  truthy (tx t) && truthy (default JSUndefined (get_prop (tx t) "confirmations")).

(** [vmstate === "FAULT" ? "error" : vmstate ? "ok" : "pending"] *)
Definition classify (vmstate : JSValue) : TransactionStatus :=
  match vmstate with
  | JSString "FAULT" => error
  | _ => if truthy vmstate then ok else pending
  end.

(** [await connection?.rpcClient.getRawTransaction(_.txid, true)], with
    the call it makes. *)
Definition query_transaction (connection : option Connection) (id : string)
  : Outcome JSValue * list Event :=
  match connection with
  | None => (Returned JSUndefined, [])
  | Some conn =>
      match rpcClient conn with
      | None => (Thrown, [])
      | Some rpc =>
          (match getRawTransaction rpc id true with
           | Some t => Returned t
           | None => Thrown
           end, [EvGetRawTransaction id true])
      end
  end.

(** The body of the callback mapped over the list. *)
Definition poll_entry (connection : option Connection) (t : RecentTransaction)
  : RecentTransaction * list Event :=
  if has_confirmations t then (t, [])
  else
    let '(r, evs) := query_transaction connection (txid t) in
    let updated :=
      tx' ← r;
      vmstate ← match get_prop tx' "vmstate" with
                 | Some v => Returned v
                 | None => Thrown
                 end;
      Returned {| txid := txid t;
                  blockchain := blockchain t;
                  tx := tx';
                  state := classify vmstate |} in
    (match updated with Returned t' => t' | _ => t end, evs).

(** [Promise.all(recentTransactions.map(async ...))]: the callbacks start
    in list order. *)
Fixpoint poll_all (connection : option Connection) (txs : list RecentTransaction)
  : list RecentTransaction * list Event :=
  match txs with
  | [] => ([], [])
  | t :: txs' =>
      let '(t', evs) := poll_entry connection t in
      let '(txs'', evs') := poll_all connection txs' in
      (t' :: txs'', evs ++ evs')
  end.

Section Handlers.
Context `{Host}.

(** ** [augmentAutoCompleteData]

    References are to objects of the declared types; where the store
    holds something else the model stops with [Thrown]. *)

(** [for (const contractPath of contractPaths)], the array growing under
    the loop: [i] is the iterator's position. *)
Fixpoint alias_loop (fuel : nat) (baseHref : string) (i : nat)
  (contractPaths : list string) (result : loc) (h : Heap)
  : Outcome (list string * Heap) :=
  match fuel with
  | O => OutOfFuel
  | S fuel' =>
      match contractPaths !! i with
      | None => Returned (contractPaths, h)
      | Some contractPath =>
          if path_isAbsolute contractPath then
            let relativePath := path_relative baseHref contractPath in
            '(_, hs, _) ← read_data h result;
            d ← read_hashes h hs;
            let h' :=
              <[hs := ObjHashes
                        (dict_set relativePath (default None (dict_get contractPath d)) d)]> h in
            alias_loop fuel' baseHref (S i) (contractPaths ++ [relativePath]) result h'
          else alias_loop fuel' baseHref (S i) contractPaths result h
      end
  end.

(** The body of [for (const hash of Object.keys(data.contractPaths))]. *)
Definition augment_hash (fuel : nat) (baseHref : string) (data result : loc)
  (hash : string) (h : Heap) : Outcome Heap :=
  '(dp, _, _) ← read_data h data;
  dpaths ← read_paths h dp;
  match dict_get hash dpaths with
  | None => Thrown
  | Some paths =>
      '(contractPaths, h1) ← alias_loop fuel baseHref 0 paths result h;
      '(rp, _, _) ← read_data h1 result;
      rpaths ← read_paths h1 rp;
      Returned (<[rp := ObjPaths (dict_set hash (dedupeAndSort contractPaths) rpaths)]> h1)
  end.

Fixpoint augment_hashes (fuel : nat) (baseHref : string) (data result : loc)
  (keys : list string) (h : Heap) : Outcome Heap :=
  match keys with
  | [] => Returned h
  | hash :: keys' =>
      h' ← augment_hash fuel baseHref data result hash h;
      augment_hashes fuel baseHref data result keys' h'
  end.

(** Lines 140-156: the copies and the document-relative aliases. *)
Definition augment_paths (fuel : nat) (documentPath : string) (data : loc)
  (h : Heap) : Outcome (loc * Heap) :=
  '(p, hs, m) ← read_data h data;
  let '(result, h) := alloc (ObjData p hs m) h in
  '(p1, hs1, m1) ← read_data h result;
  dp ← read_paths h p1;
  let '(p', h) := alloc (ObjPaths dp) h in
  let h := <[result := ObjData p' hs1 m1]> h in
  '(p2, hs2, m2) ← read_data h result;
  dh ← read_hashes h hs2;
  let '(hs', h) := alloc (ObjHashes dh) h in
  let h := <[result := ObjData p2 hs' m2]> h in
  let baseHref := path_dirname documentPath in
  '(dp0, _, _) ← read_data h data;
  dpaths ← read_paths h dp0;
  h ← augment_hashes fuel baseHref data result (dict_keys dpaths) h;
  Returned (result, h).

(** [_.contract?.startsWith("0x")]: a [TypeError] when [_] is
    [undefined] or [null], or when [contract] is neither absent nor a
    string. *)
Definition has_hex_contract (step : JSValue) : Outcome bool :=
  match get_prop step "contract" with
  | None => Thrown
  | Some (JSUndefined | JSNull) => Returned false
  | Some (JSString s) => Returned (String.prefix "0x" s)
  | Some _ => Thrown
  end.

(** [_.contract || <empty string>] on a step the filter kept. *)
Definition contract_or_empty (step : JSValue) : string :=
  match get_prop step "contract" with
  | Some (JSString s) => s
  | _ => EmptyString
  end.

Fixpoint filter_hex_contract (steps : list JSValue) : Outcome (list JSValue) :=
  match steps with
  | [] => Returned []
  | step :: steps' =>
      keep ← has_hex_contract step;
      kept ← filter_hex_contract steps';
      Returned (if (keep : bool) then step :: kept else kept)
  end.

Definition contract_hashes (fileContents : list JSValue) : Outcome (list string) :=
  kept ← filter_hex_contract fileContents;
  Returned (map contract_or_empty kept).

(** One turn of the loop over the contract hashes, inside its [try]. *)
Definition fetch_manifest (rpc : RpcClient) (result : loc) (contractHash : string)
  (h : Heap) : Outcome Heap :=
  match getContractState rpc contractHash with
  | None => Thrown
  | Some manifest =>
      '(_, _, m) ← read_data h result;
      d ← read_manifests h m;
      Returned (<[m := ObjManifests (dict_set (abi_hash manifest) manifest d)]> h)
  end.

Fixpoint fetch_manifests (rpc : RpcClient) (result : loc) (hashes : list string)
  (h : Heap) : Heap * list Event :=
  match hashes with
  | [] => (h, [])
  | contractHash :: hashes' =>
      let h' :=
        match fetch_manifest rpc result contractHash h with
        | Returned h' => h'
        | _ => h
        end in
      let '(h'', evs) := fetch_manifests rpc result hashes' h' in
      (h'', EvGetContractState contractHash :: evs)
  end.

Definition augmentAutoCompleteData (fuel : nat) (c : Controller) (data : loc)
  : Outcome (loc * Heap * list Event) :=
  '(result, h) ← augment_paths fuel (fsPath (document c)) data (heap c);
  match activeConnection c with
  | Some {| rpcClient := Some rpc |} =>
      hashes ← contract_hashes (fileContents (viewState c));
      let '(h', evs) := fetch_manifests rpc result hashes h in
      Returned (result, h', evs)
  | _ => Returned (result, h, [])
  end.

(** ** [onFileUpdate] *)
Definition parse_error_text (d : Document) : string :=
  ("There was a problem parsing " ++ dquote ++ path_basename (fsPath d)
   ++ dquote ++ ". Try opening the file using the built-in editor and confirm that it contains valid JSON.")%string.

Definition read_error_text (d : Document) : string :=
  ("There was an error reading " ++ fsPath d)%string.

(** [JSONC.parse(fileText) || []], wrapped in an array when it is none. *)
Definition to_fileContents (parsed : JSValue) : list JSValue :=
  let fileContents := if truthy parsed then parsed else JSArray [] in
  match fileContents with
  | JSArray items => items
  | _ => [fileContents]
  end.

Definition onFileUpdate (c : Controller) : Controller :=
  if isClosed c then c
  else
    match getText (document c) with
    | None => updateViewState (set_errorText (read_error_text (document c))) c
    | Some fileText =>
        let fileText :=
          if (String.length (trim fileText) =? 0)%nat then "[]"%string else fileText in
        match JSONC_parse fileText with
        | Some parsed =>
            updateViewState
              (set_fileContents_errorText (to_fileContents parsed) EmptyString) c
        | None => updateViewState (set_errorText (parse_error_text (document c))) c
        end
    end.

(** ** [periodicViewStateUpdate] *)
Definition periodicViewStateUpdate (fuel : nat) (c : Controller) : Outcome Controller :=
  let connection := activeConnection c in
  let '(recentTransactions, evs) :=
    poll_all connection (recentTransactions (viewState c)) in
  let c := emit evs c in
  '(autoCompleteData, h, evs') ← augmentAutoCompleteData fuel c (autoComplete c);
  Returned
    (updateViewState
       (set_autoCompleteData_recentTransactions autoCompleteData recentTransactions)
       (emit evs' (with_heap h c))).

(** ** [runFile] *)

(** What the outside answers during one call of [runFile]. *)
Record RunResult := {
  isError : bool;
  message : string;
}.

Record World := {
  (** [activeConnection.connection] after [connect()] *)
  connect_result : option Connection;
  (** the account picked in [IoHelpers.multipleChoice] *)
  multipleChoice_result : option string;
  (** [neoExpress.runSync(...)] *)
  runSync_result : RunResult;
}.

Definition pending_transaction (conn : Connection) (id : string) : RecentTransaction :=
  {| txid := id;
     blockchain := name (blockchainIdentifier conn);
     tx := JSUndefined;
     state := pending |}.

(** The [else] branch of [if (result.isError)], up to the view-state
    update: every id is [unshift]ed, then the array is cut. *)
Definition record_transactions (conn : Connection) (message : string)
  (recent : list RecentTransaction) : list RecentTransaction :=
  let recentTransactions :=
    fold_left (fun acc id => pending_transaction conn id :: acc)
              (extract_txids message) recent in
  if (MAX_RECENT_TXS <? length recentTransactions)%nat
  then take MAX_RECENT_TXS recentTransactions
  else recentTransactions.

Definition express_warning : string :=
  "Currently, you must be connected to a Neo Express blockchain to invoke contracts. Support for TestNet and MainNet contract invocation is coming soon.".

(** Lines 262-267: connect first when there is no connection. *)
Definition ensure_connection (fuel : nat) (w : World) (c : Controller)
  : Outcome Controller :=
  match activeConnection c with
  | Some _ => Returned c
  | None =>
      periodicViewStateUpdate fuel
        (with_connection (connect_result w) (emit [EvConnect] c))
  end.

Definition runFile (fuel : nat) (w : World) (path : string) (c : Controller)
  : Outcome Controller :=
  c ← ensure_connection fuel w c;
  match activeConnection c with
  | Some connection =>
      if String.eqb (blockchainType (blockchainIdentifier connection)) "express"
      then
        let walletNames := walletNames (blockchainIdentifier connection) in
        let c :=
          emit [EvMultipleChoice "Select an account..." ("genesis"%string :: walletNames)] c in
        match multipleChoice_result w with
        | None => Returned c
        | Some account =>
            if String.eqb account EmptyString then Returned c
            else
              let c := emit [EvDocumentSave] c in
              let c := updateViewState (set_collapseTransactions false) c in
              let args :=
                ["contract"; "invoke"; "-i";
                 configPath (blockchainIdentifier connection); path; account]%string in
              let c := emit [EvRunSync args] c in
              let result := runSync_result w in
              if isError result
              then Returned (emit [EvShowErrorMessage (message result)] c)
              else
                Returned
                  (updateViewState
                     (set_recentTransactions
                        (record_transactions connection (message result)
                           (recentTransactions (viewState c))))
                     c)
        end
      else Returned (emit [EvShowWarningMessage express_warning] c)
  | None => Returned (emit [EvShowWarningMessage express_warning] c)
  end.

End Handlers.

(** * A concrete host

    The properties below hold for every [Host].  The examples and
    counterexamples run on this one. *)

(** POSIX paths. *)
Definition posix_isAbsolute (p : string) : bool :=
  match p with
  | String c _ => Ascii.eqb c "/"
  | EmptyString => false
  end.

Fixpoint strip_slashes (s : list ascii) : list ascii :=
  match s with
  | c :: s' => if Ascii.eqb c "/" then strip_slashes s' else s
  | [] => []
  end.

(** The text after the last ["/"], and the text before it. *)
Fixpoint last_segment (s acc : list ascii) : list ascii :=
  match s with
  | [] => rev acc
  | c :: s' => if Ascii.eqb c "/" then last_segment s' [] else last_segment s' (c :: acc)
  end.

Definition posix_basename (p : string) : string :=
  string_of_list_ascii (last_segment (chars p) []).

Definition posix_dirname (p : string) : string :=
  let n := (String.length p - String.length (posix_basename p) - 1)%nat in
  String.substring 0 n p.

(** A stand-in for [path.relative], exact for a path below [base]: the
    text of [p] after [base], without the slashes it starts with. *)
Definition below_relative (base p : string) : string :=
  let rest :=
    if String.prefix base p
    then String.substring (String.length base) (String.length p - String.length base) p
    else p in
  string_of_list_ascii (strip_slashes (chars rest)).

Fixpoint insert_sorted (x : string) (l : list string) : list string :=
  match l with
  | [] => [x]
  | y :: l' =>
      if String.eqb x y then l
      else if String.ltb x y then x :: l
      else y :: insert_sorted x l'
  end.

(** Modelled from the spec: [dedupeAndSort], of the module
    [../dedupeAndSort] that is not among the sources at hand.  The
    specification has the paths deduplicated and sorted: duplicates
    removed, ascending. *)
Definition sort_unique (l : list string) : list string :=
  fold_right insert_sorted [] l.

(** The lexical helpers of [json_parse] below. *)
Definition is_digit (c : ascii) : bool :=
  let n := nat_of_ascii c in ((48 <=? n) && (n <=? 57))%nat.

Definition is_quote (c : ascii) : bool := (nat_of_ascii c =? 34)%nat.

Fixpoint span_digits (s : list ascii) (acc : Z) : Z * list ascii :=
  match s with
  | c :: s' =>
      if is_digit c
      then span_digits s' (10 * acc + Z.of_nat (nat_of_ascii c - 48))
      else (acc, s)
  | [] => (acc, [])
  end.

(** The characters up to the closing quote. *)
Fixpoint span_string (s acc : list ascii) : option (string * list ascii) :=
  match s with
  | [] => None
  | c :: s' =>
      if is_quote c then Some (string_of_list_ascii (rev acc), s')
      else if Ascii.eqb c "\" then None
      else span_string s' (c :: acc)
  end.

Definition parse_number (s : list ascii) : option (JSValue * list ascii) :=
  let '(sign, ds) :=
    match s with
    | "-"%char :: s' => (-1, s')
    | _ => (1, s)
    end in
  match ds with
  | d :: _ =>
      if is_digit d then
        let '(n, rest) := span_digits ds 0 in
        match rest with
        | ("." | "e" | "E")%char :: _ => None
        | _ => Some (JSNumber (sign * n), rest)
        end
      else None
  | [] => None
  end.

(** One value at the head of [s], and the text after it.  Every call
    on a shorter text takes one unit of [fuel]. *)
Fixpoint parse_value (fuel : nat) (s : list ascii) : option (JSValue * list ascii) :=
  match fuel with
  | O => None
  | S fuel' =>
      match trim_start s with
      | ("n" :: "u" :: "l" :: "l" :: rest)%char => Some (JSNull, rest)
      | ("t" :: "r" :: "u" :: "e" :: rest)%char => Some (JSBool true, rest)
      | ("f" :: "a" :: "l" :: "s" :: "e" :: rest)%char => Some (JSBool false, rest)
      | ("[" :: rest)%char =>
          match trim_start rest with
          | ("]" :: rest')%char => Some (JSArray [], rest')
          | _ => parse_items fuel' rest []
          end
      | ("{" :: rest)%char =>
          match trim_start rest with
          | ("}" :: rest')%char => Some (JSObject [], rest')
          | _ => parse_members fuel' rest []
          end
      | c :: rest =>
          if is_quote c then
            match span_string rest [] with
            | Some (str, rest') => Some (JSString str, rest')
            | None => None
            end
          else parse_number (c :: rest)
      | [] => None
      end
  end
with parse_items (fuel : nat) (s : list ascii) (acc : list JSValue)
  : option (JSValue * list ascii) :=
  match fuel with
  | O => None
  | S fuel' =>
      match parse_value fuel' s with
      | Some (v, rest) =>
          match trim_start rest with
          | ("," :: rest')%char => parse_items fuel' rest' (v :: acc)
          | ("]" :: rest')%char => Some (JSArray (rev (v :: acc)), rest')
          | _ => None
          end
      | None => None
      end
  end
with parse_members (fuel : nat) (s : list ascii) (acc : list (string * JSValue))
  : option (JSValue * list ascii) :=
  match fuel with
  | O => None
  | S fuel' =>
      match trim_start s with
      | q :: rest =>
          if is_quote q then
            match span_string rest [] with
            | Some (key, rest1) =>
                match trim_start rest1 with
                | (":" :: rest2)%char =>
                    match parse_value fuel' rest2 with
                    | Some (v, rest3) =>
                        match trim_start rest3 with
                        | ("," :: rest4)%char =>
                            parse_members fuel' rest4 ((key, v) :: acc)
                        | ("}" :: rest4)%char =>
                            Some (JSObject (rev ((key, v) :: acc)), rest4)
                        | _ => None
                        end
                    | None => None
                    end
                | _ => None
                end
            | None => None
            end
          else None
      | [] => None
      end
  end.

(** Modelled from the spec: [JSONC.parse], of the module [../JSONC] that
    is not among the sources at hand.  The specification has the
    invocation file as structured data, an array of objects with string
    and array fields as [JSON.stringify] writes it.  [json_parse] reads
    that part of JSON: [null], [true], [false], integers, strings
    without escapes, arrays and objects; it rejects everything else. *)
Definition json_parse (text : string) : option JSValue :=
  match parse_value (S (String.length text)) (chars text) with
  | Some (v, rest) =>
      match trim_start rest with
      | [] => Some v
      | _ :: _ => None
      end
  | None => None
  end.

#[local] Instance posix_host : Host := {|
  path_dirname := posix_dirname;
  path_basename := posix_basename;
  path_isAbsolute := posix_isAbsolute;
  path_relative := below_relative;
  dedupeAndSort := sort_unique;
  JSONC_parse := json_parse;
|}.

(** ** Concrete nodes, connections and transactions *)

Definition express_network : BlockchainIdentifier :=
  {| blockchainType := "express";
     name := "local";
     configPath := "/home/u/default.neo-express";
     walletNames := ["alice"%string] |}.

(** A node that answers every transaction query with [answer] and knows
    no contract. *)
Definition node_answering (answer : option JSValue) : RpcClient :=
  {| getRawTransaction := fun _ _ => answer;
     getContractState := fun _ => None |}.

Definition connection_to (rpc : RpcClient) : Connection :=
  {| blockchainIdentifier := express_network; rpcClient := Some rpc |}.

(** The node reports the transaction as executed, without a
    [confirmations] field. *)
Definition halt_unconfirmed : JSValue :=
  JSObject [("vmstate"%string, JSString "HALT")].

Definition fault_confirmed : JSValue :=
  JSObject [("vmstate"%string, JSString "FAULT"); ("confirmations"%string, JSNumber 1)].

Definition halt_confirmed : JSValue :=
  JSObject [("vmstate"%string, JSString "HALT"); ("confirmations"%string, JSNumber 3)].

Definition submitted (id : string) : RecentTransaction :=
  pending_transaction (connection_to (node_answering None)) id.

(** The entry for ["0xab"] after a poll cycle against a node answering
    [halt_unconfirmed]. *)
Definition seen_halted : RecentTransaction :=
  fst (poll_entry (Some (connection_to (node_answering (Some halt_unconfirmed))))
         (submitted "0xab")).

(** ** Shapes of the store *)

(** [data] refers to a completion-data object whose three dictionaries
    are in the store. *)
Definition wf_data (h : Heap) (data : loc) : Prop :=
  exists p hs m dp dh dm,
    h !! data = Some (ObjData p hs m) /\
    h !! p = Some (ObjPaths dp) /\
    h !! hs = Some (ObjHashes dh) /\
    h !! m = Some (ObjManifests dm).

(** The store while [augmentAutoCompleteData] runs on the store [h0]:
    [h0] with three more objects, the copy [result] and its own two
    dictionaries; the manifests are those of the original at [m]. *)
Definition augmenting (h0 : Heap) (m : loc) (h : Heap) : Prop :=
  (length h = length h0 + 3)%nat /\
  (forall l, (l < length h0)%nat -> h !! l = h0 !! l) /\
  h !! length h0 = Some (ObjData (length h0 + 1)%nat (length h0 + 2)%nat m) /\
  (exists d, h !! (length h0 + 1)%nat = Some (ObjPaths d)) /\
  (exists d, h !! (length h0 + 2)%nat = Some (ObjHashes d)).

(** The absolute paths of an array: each makes the loop over the array
    one turn longer. *)
Definition absolute_count `{Host} (l : list string) : nat :=
  length (filter (fun p => path_isAbsolute p = true) l).

(** What the loop over the contract hashes leaves in the manifests. *)
Definition merge_manifest (rpc : RpcClient)
  (d : list (string * ContractManifest)) (contractHash : string)
  : list (string * ContractManifest) :=
  match getContractState rpc contractHash with
  | Some manifest => dict_set (abi_hash manifest) manifest d
  | None => d
  end.

(** ** A concrete panel *)

Definition token_manifest : ContractManifest :=
  {| abi_hash := "0xc1"; abi_methods := ["transfer"%string] |}.

(** A node that knows the contract ["0xc1"] only, and answers every
    transaction query with [answer]. *)
Definition node_with_token (answer : option JSValue) : RpcClient :=
  {| getRawTransaction := fun _ _ => answer;
     getContractState := fun contractHash =>
       if String.eqb contractHash "0xc1" then Some token_manifest else None |}.

(** The store: the completion data at [0], its contract paths at [1],
    its contract hashes at [2], its (empty) manifests at [3]. *)
Definition base_heap : Heap :=
  [ ObjData 1 2 3;
    ObjPaths [("0xc1"%string, ["/home/u/contracts/token.nef"%string])];
    ObjHashes [("/home/u/contracts/token.nef"%string, Some "0xc1"%string)];
    ObjManifests [] ].

Definition invoke_document (text : string) : Document :=
  {| fsPath := "/home/u/invoke.json"; getText := Some text |}.

Definition step_calling (contract : string) : JSValue :=
  JSObject [("contract"%string, JSString contract)].

Definition panel (connection : option Connection) (text : string)
  (steps : list JSValue) (recent : list RecentTransaction) : Controller :=
  {| viewState :=
       {| fileContents := steps;
          autoCompleteData := 0%nat;
          errorText := EmptyString;
          recentTransactions := recent;
          collapseTransactions := true;
          selectedTransactionId := None |};
     isClosed := false;
     document := invoke_document text;
     activeConnection := connection;
     autoComplete := 0%nat;
     heap := base_heap;
     trace := [] |}.

(** A panel on a file of two steps, the first naming a contract the
    node does not know. *)
Definition two_step_panel : Controller :=
  panel (Some (connection_to (node_with_token None))) "[]"
    [step_calling "0xdead"; step_calling "0xc1"] [].

(** An entry whose transaction the node has reported with confirmations. *)
Definition confirmed_entry : RecentTransaction :=
  {| txid := "0xab"; blockchain := "local"; tx := halt_confirmed; state := ok |}.

(** A panel tracking a fresh transaction and a confirmed one, the node
    answering every query with [fault_confirmed]. *)
Definition tracking_panel : Controller :=
  panel (Some (connection_to (node_with_token (Some fault_confirmed)))) "[]" []
    [submitted "0xcd"; confirmed_entry].

(** The controller a handler leaves, [c] when it did not return. *)
Definition returned_or (c : Controller) (o : Outcome Controller) : Controller :=
  match o with
  | Returned c' => c'
  | _ => c
  end.

(** ** Concrete runs *)

Definition world (connected : option Connection) (account : option string)
  (failed : bool) (output : string) : World :=
  {| connect_result := connected;
     multipleChoice_result := account;
     runSync_result := {| isError := failed; message := output |} |}.

Definition local_node : Connection :=
  connection_to (node_with_token (Some halt_confirmed)).

(** A panel connected to [local_node], tracking [recent]. *)
Definition connected_panel (recent : list RecentTransaction) : Controller :=
  panel (Some local_node) "[]" [] recent.



(** ** Panels reached from a fresh one

    [tracked fresh_only c]: the controller [c] is reached from a panel
    with no recent transaction by file updates, poll cycles and runs of
    [runFile].  With [fresh_only] set, every run is one whose runner
    output names pairwise distinct transactions that the panel is not
    tracking. *)
Definition fresh_ids (message : string) (recent : list RecentTransaction) : Prop :=
  NoDup (extract_txids message) /\
  forall id, In id (extract_txids message) -> ~ In id (map txid recent).

Inductive tracked `{Host} (fresh_only : bool) : Controller -> Prop :=
  | tracked_init (c : Controller) :
      recentTransactions (viewState c) = [] -> tracked fresh_only c
  | tracked_file (c : Controller) :
      tracked fresh_only c -> tracked fresh_only (onFileUpdate c)
  | tracked_poll (fuel : nat) (c c' : Controller) :
      tracked fresh_only c ->
      periodicViewStateUpdate fuel c = Returned c' ->
      tracked fresh_only c'
  | tracked_run (fuel : nat) (w : World) (path : string) (c c' : Controller) :
      tracked fresh_only c ->
      runFile fuel w path c = Returned c' ->
      (fresh_only = true ->
       fresh_ids (message (runSync_result w)) (recentTransactions (viewState c))) ->
      tracked fresh_only c'.

(** ** The other list requests of [onRequest]

    As for [moveStep], each function computes the array handed to
    [applyEdit]. *)

(** [arr.map((x, i) => f x i)], the index counted from [i]. *)
Fixpoint map_from {A B : Type} (f : A -> Z -> B) (i : Z) (arr : list A) : list B :=
  match arr with
  | [] => []
  | x :: arr' => f x i :: map_from f (i + 1) arr'
  end.

Definition map_index {A B : Type} (f : A -> Z -> B) (arr : list A) : list B :=
  map_from f 0 arr.

(** The object literal of the [update] branch; a field the request
    leaves out is [undefined]. *)
Definition step_object (contract operation args : JSValue) : JSValue :=
  JSObject [("contract"%string, contract); ("operation"%string, operation);
            ("args"%string, args)].

(** The [update] request, lines 69-83. *)
Definition updateStep (fileContents : list JSValue) (i : Z)
  (contract operation args : JSValue) : list JSValue :=
  let newFileContents := fileContents in
  map_index
    (fun invocation i' =>
       if i' =? i then step_object contract operation args else invocation)
    newFileContents.

(** The [addStep] request, lines 84-88. *)
Definition addStep (fileContents : list JSValue) : list JSValue :=
  let newFileContents := fileContents in
  newFileContents ++ [JSObject []].

(** The [deleteStep] request, lines 89-94. *)
Definition deleteStep (fileContents : list JSValue) (i : Z) : list JSValue :=
  filter_index (fun i' => negb (i' =? i)) fileContents.

(** The index at which [moveStep] leaves the step it moves. *)
Definition landing (from to : nat) : nat :=
  if (from <? to)%nat then (to - 1)%nat else to.

(** ** Poll cycles one after the other

    [refreshLoop] runs [periodicViewStateUpdate] again and again, each
    time against the connection of the moment; [poll_cycles] is what the
    cycles make of the list. *)
Definition poll_cycles (connections : list (option Connection))
  (txs : list RecentTransaction) : list RecentTransaction :=
  fold_left (fun txs connection => fst (poll_all connection txs)) connections txs.

(** No RPC client to ask: no connection, or a connection without one. *)
Definition no_client (connection : option Connection) : bool :=
  match connection with
  | Some {| rpcClient := Some _ |} => false
  | _ => true
  end.

(** The state of an entry agrees with the transaction stored in it: a
    fresh entry is [pending] and has none; a polled one has the state
    its [vmstate] classifies as. *)
Definition consistent (t : RecentTransaction) : Prop :=
  (tx t = JSUndefined /\ state t = pending) \/
  (exists vmstate, get_prop (tx t) "vmstate" = Some vmstate /\ state t = classify vmstate).

(** The output of a runner that has sent twelve transactions. *)
Definition twelve_ids : string :=
  "0x1  0x2  0x3  0x4  0x5  0x6  0x7  0x8  0x9  0xa  0xb  0xc".

(** A connected panel after a poll cycle and a run that printed
    [twelve_ids]. *)
Definition busy_panel : Controller :=
  let c0 := connected_panel [] in
  let c1 := returned_or c0 (periodicViewStateUpdate 3 c0) in
  returned_or c1
    (runFile 3 (world None (Some "genesis"%string) false twelve_ids)
       "/home/u/invoke.json" c1).

(** The calls that go to the node: connecting and the two queries. *)
Definition is_node_event (e : Event) : bool :=
  match e with
  | EvConnect | EvGetRawTransaction _ _ | EvGetContractState _ => true
  | _ => false
  end.

Definition is_run_event (e : Event) : bool :=
  match e with
  | EvRunSync _ => true
  | _ => false
  end.

(** The argument list of the runner for the file at [path]. *)
Definition invoke_args (conn : Connection) (path account : string) : list string :=
  ["contract"; "invoke"; "-i"; configPath (blockchainIdentifier conn); path; account]%string.

(** The shape of a transaction id: ["0x"] or ["0X"], then one or more
    hex digits, and nothing else. *)
Definition is_txid (id : list ascii) : bool :=
  match id with
  | z :: x :: d :: ds =>
      Ascii.eqb z "0" && (Ascii.eqb x "x" || Ascii.eqb x "X")
      && forallb is_hex (d :: ds)
  | _ => false
  end.

(** ** What the path loop of [augmentAutoCompleteData] computes *)

(** An array of contract paths with the document-relative alias of each
    absolute path behind it. *)
Definition aliased `{Host} (baseHref : string) (paths : list string) : list string :=
  paths
  ++ map (path_relative baseHref) (filter (fun p => path_isAbsolute p = true) paths).

(** [hashes[relative(p)] = hashes[p]] *)
Definition alias_hash `{Host} (baseHref : string)
  (d : list (string * option string)) (p : string) : list (string * option string) :=
  dict_set (path_relative baseHref p) (default None (dict_get p d)) d.

(** The store [h0] with the copy made by [augmentAutoCompleteData]
    behind it: the data object and its own two dictionaries. *)
Definition augmented (h0 : Heap) (m : loc)
  (paths : list (string * list string)) (hashes : list (string * option string))
  : Heap :=
  h0 ++ [ObjData (length h0 + 1)%nat (length h0 + 2)%nat m;
         ObjPaths paths; ObjHashes hashes].

(** The absolute paths the loop meets, in the order it meets them. *)
Definition absolute_paths `{Host} (dp : list (string * list string))
  (keys : list string) : list string :=
  concat (map (fun k => filter (fun p => path_isAbsolute p = true)
                          (default [] (dict_get k dp))) keys).

(** * [NeoExpressCommands]

    The commands of [neoExpressCommands.ts].  What the user answers and
    what the runner returns are functions of what they are asked; the
    calls that leave a command are its result, in order. *)

(** [String(n)] for an integer. *)
Definition decimal (n : nat) : string :=
  DecimalString.NilEmpty.string_of_uint (Nat.to_uint n).

Definition number_to_string (z : Z) : string :=
  if z <? 0 then ("-" ++ decimal (Z.to_nat (- z)))%string else decimal (Z.to_nat z).

Definition hex_digit_value (c : ascii) : Z :=
  let n := Z.of_nat (nat_of_ascii c) in
  if is_digit c then n - 48 else if 97 <=? n then n - 87 else n - 55.

Definition hex_value (ds : list ascii) : Z :=
  fold_left (fun acc c => 16 * acc + hex_digit_value c) ds 0.

(** [parseInt(s)]: white space, a sign, then the longest run of decimal
    digits, or of hex digits after ["0x"]; [None] is [NaN]. *)
Definition parseInt (s : string) : option Z :=
  let s := trim_start (chars s) in
  let '(sign, s) :=
    match s with
    | "-"%char :: r => (-1, r)
    | "+"%char :: r => (1, r)
    | _ => (1, s)
    end in
  let in_decimal :=
    match s with
    | d :: _ => if is_digit d then Some (sign * fst (span_digits s 0)) else None
    | [] => None
    end in
  match s with
  | "0"%char :: x :: r =>
      if Ascii.eqb x "x" || Ascii.eqb x "X" then
        match fst (span_hex r) with
        | [] => None
        | ds => Some (sign * hex_value ds)
        end
      else in_decimal
  | _ => in_decimal
  end.

Module NeoExpressCommands.

(** The part of [BlockchainIdentifier] the commands read. *)
Inductive BlockchainIdentifier := {
  context : string;
  name : string;
  configPath : string;
  index : Z;
  (** [getChildren()] *)
  children : list BlockchainIdentifier;
  wallets : list string;
}.

Inductive Event :=
  | EvMultipleChoice (placeHolder : string) (items : list string)
  | EvEnterNumber (prompt : string)
  | EvRunInTerminal (name : string) (args : list string)
  | EvRunSync (args : list string)
  | EvShowErrorMessage (message : string)
  | EvShowInformationMessage (message : string).

(** [IoHelpers]: what the user answers; [None] when a prompt is
    dismissed. *)
Record User := {
  multipleChoice : string -> list string -> option string;
  enterNumber : string -> option Z;
}.

(** [!answer]: dismissed, or the empty string. *)
Definition no_answer (answer : option string) : bool :=
  match answer with
  | None => true
  | Some s => String.eqb s EmptyString
  end.

(** The label of the child at [i]: [`${i} - ${_.name}`]. *)
Definition node_label (child : BlockchainIdentifier) (i : Z) : string :=
  (number_to_string i ++ " - " ++ name child)%string.

Definition terminal_start (identifer : BlockchainIdentifier) : Event :=
  EvRunInTerminal (name identifer)
    ["run"; "-i"; configPath identifer; "-s"; "15";
     number_to_string (index identifer)]%string.

(** [children[n]], and what [run] does with it; [undefined] makes the
    call throw at once, in a promise nobody awaits. *)
Fixpoint run (user : User) (identifer : BlockchainIdentifier) : list Event :=
  match identifer with
  | {| context := ctx; children := kids |} =>
      if negb (String.eqb ctx "nxp3") then []
      else
        match kids with
        | [child] => run user child
        | _ :: _ :: _ =>
            let items := map_index node_label kids in
            EvMultipleChoice "Select a node" items ::
            (let selection := multipleChoice user "Select a node" items in
             if no_answer selection then []
             else
               match parseInt (default EmptyString selection) with
               | None => []
               | Some selectedIndex =>
                   if selectedIndex <? 0 then []
                   else
                     (fix at_index (l : list BlockchainIdentifier) (n : nat)
                        : list Event :=
                        match l, n with
                        | child :: _, O => run user child
                        | _ :: l', S n' => at_index l' n'
                        | [], _ => []
                        end) kids (Z.to_nat selectedIndex)
               end)
        | [] => [terminal_start identifer]
        end
  end.



(** [leaf] is [identifer] or lies below it. *)
Inductive reaches : BlockchainIdentifier -> BlockchainIdentifier -> Prop :=
  | reaches_self (identifer : BlockchainIdentifier) : reaches identifer identifer
  | reaches_child (identifer child leaf : BlockchainIdentifier) :
      In child (children identifer) -> reaches child leaf -> reaches identifer leaf.

Definition is_terminal_start (e : Event) : bool :=
  match e with
  | EvRunInTerminal _ _ => true
  | _ => false
  end.

End NeoExpressCommands.

(** Induction over an identifier and everything below it. *)
Fixpoint identifier_rect_nested (P : NeoExpressCommands.BlockchainIdentifier -> Prop)
  (step : forall t, Forall P (NeoExpressCommands.children t) -> P t)
  (t : NeoExpressCommands.BlockchainIdentifier) : P t :=
  match t as t0 return P t0 with
  | NeoExpressCommands.Build_BlockchainIdentifier ctx nm cfg idx kids ws =>
      step (NeoExpressCommands.Build_BlockchainIdentifier ctx nm cfg idx kids ws)
        ((fix all (l : list NeoExpressCommands.BlockchainIdentifier) : Forall P l :=
            match l with
            | [] => @List.Forall_nil _ P
            | c :: l' =>
                @List.Forall_cons _ P c l' (identifier_rect_nested P step c) (all l')
            end) kids)
  end.

(** A network of two nodes below a root that is only a folder. *)
Definition leaf_node (nm : string) (i : Z) : NeoExpressCommands.BlockchainIdentifier :=
  {| NeoExpressCommands.context := "nxp3";
     NeoExpressCommands.name := nm;
     NeoExpressCommands.configPath := "/home/u/default.neo-express";
     NeoExpressCommands.index := i;
     NeoExpressCommands.children := [];
     NeoExpressCommands.wallets := ["alice"; "bob"]%string |}.

Definition two_node_network : NeoExpressCommands.BlockchainIdentifier :=
  {| NeoExpressCommands.context := "nxp3";
     NeoExpressCommands.name := "default";
     NeoExpressCommands.configPath := "/home/u/default.neo-express";
     NeoExpressCommands.index := 0;
     NeoExpressCommands.children := [leaf_node "node-a" 0; leaf_node "node-b" 1];
     NeoExpressCommands.wallets := ["alice"; "bob"]%string |}.

(** A user who picks the item at [i] of every list, and enters [amount]. *)
Definition user_picking (i : nat) (amount : option Z) : NeoExpressCommands.User :=
  {| NeoExpressCommands.multipleChoice := fun _ items => items !! i;
     NeoExpressCommands.enterNumber := fun _ => amount |}.



(** * Properties *)

(** ** Indexed filters as [take], [drop] and [remove_at] *)

Lemma filter_from_lt {A : Type} (t k : Z) (l : list A) :
  filter_from (fun i => i <? t) k l = take (Z.to_nat (t - k)) l.
Proof.
  revert k; induction l as [|x l IH]; intros k; simpl.
  - by rewrite take_nil.
  - rewrite IH. destruct (Z.ltb_spec k t) as [Hlt|Hge].
    + replace (Z.to_nat (t - k)) with (S (Z.to_nat (t - (k + 1)))) by lia.
      reflexivity.
    + replace (Z.to_nat (t - (k + 1))) with O by lia.
      replace (Z.to_nat (t - k)) with O by lia.
      reflexivity.
Qed.

Lemma filter_from_ge {A : Type} (t k : Z) (l : list A) :
  filter_from (fun i => t <=? i) k l = drop (Z.to_nat (t - k)) l.
Proof.
  revert k; induction l as [|x l IH]; intros k; simpl.
  - by rewrite drop_nil.
  - rewrite IH. destruct (Z.leb_spec t k) as [Hle|Hgt].
    + replace (Z.to_nat (t - (k + 1))) with O by lia.
      replace (Z.to_nat (t - k)) with O by lia.
      reflexivity.
    + replace (Z.to_nat (t - k)) with (S (Z.to_nat (t - (k + 1)))) by lia.
      reflexivity.
Qed.

Lemma filter_from_ne_in {A : Type} (from k : Z) (l : list A) :
  k <= from ->
  filter_from (fun i => negb (i =? from)) k l = remove_at (Z.to_nat (from - k)) l.
Proof.
  revert k; induction l as [|x l IH]; intros k Hk; simpl.
  - unfold remove_at. by rewrite take_nil, drop_nil.
  - destruct (Z.eqb_spec k from) as [->|Hne]; simpl.
    + rewrite Z.sub_diag. unfold remove_at; simpl. rewrite drop_0.
      clear IH Hk. revert from.
      induction l as [|y l IHl]; intros from; simpl; [done|].
      destruct (Z.eqb_spec (from + 1) from); [lia|]. simpl. f_equal.
      specialize (IHl (from + 1)).
      assert (Hgen : forall (j : Z) (m : list A), from < j ->
                 filter_from (fun i => negb (i =? from)) j m = m).
      { clear. intros j m; revert j.
        induction m as [|z m IHm]; intros j Hj; simpl; [done|].
        destruct (Z.eqb_spec j from); [lia|]. simpl. f_equal. apply IHm. lia. }
      apply Hgen. lia.
    + rewrite IH by lia.
      replace (Z.to_nat (from - k)) with (S (Z.to_nat (from - (k + 1)))) by lia.
      reflexivity.
Qed.

Lemma filter_from_ne_out {A : Type} (from k : Z) (l : list A) :
  from < k \/ k + Z.of_nat (length l) <= from ->
  filter_from (fun i => negb (i =? from)) k l = l.
Proof.
  revert k; induction l as [|x l IH]; intros k Hk; simpl; [done|].
  simpl in Hk. destruct (Z.eqb_spec k from); [lia|]. simpl.
  f_equal. apply IH. lia.
Qed.


Lemma insert_remove_at {A : Type} (i : nat) (x : A) (l : list A) :
  l !! i = Some x -> insert_at i x (remove_at i l) = l.
Proof.
  intros Hx. unfold insert_at, remove_at.
  pose proof (lookup_lt_Some _ _ _ Hx) as Hlt.
  rewrite take_app_le by (rewrite length_take; lia).
  rewrite take_take, Nat.min_id.
  rewrite drop_app_ge by (rewrite length_take; lia).
  rewrite length_take, Nat.min_l, Nat.sub_diag, drop_0 by lia.
  rewrite <- (take_drop_middle l i x Hx) at 3. reflexivity.
Qed.

(** [moveStep] with indices inside the array, in terms of lists. *)
Lemma moveStep_in_range (steps : list JSValue) (from to : nat) (x : JSValue) :
  steps !! from = Some x ->
  moveStep steps (Z.of_nat from) (Z.of_nat to)
  = insert_at (if (from <? to)%nat then (to - 1)%nat else to) x (remove_at from steps).
Proof.
  intros Hx. unfold moveStep, filter_index, index, insert_at.
  rewrite filter_from_ne_in by lia.
  rewrite filter_from_lt, filter_from_ge.
  destruct (Z.ltb_spec (Z.of_nat from) 0) as [?|_]; [lia|].
  rewrite Nat2Z.id, Hx; simpl.
  rewrite !Z.sub_0_r, Nat2Z.id.
  destruct (Nat.ltb_spec from to) as [Hlt|Hge].
  - destruct (Z.gtb_spec (Z.of_nat to) (Z.of_nat from)) as [_|?]; [|lia].
    replace (Z.to_nat (Z.of_nat to - 1)) with (to - 1)%nat by lia.
    reflexivity.
  - destruct (Z.gtb_spec (Z.of_nat to) (Z.of_nat from)) as [?|_]; [lia|].
    rewrite Nat2Z.id. reflexivity.
Qed.

(** C2: for indices [from] and [to] inside the array, [moveStep] removes
    the element at [from] and inserts it at [to], one less when [to]
    lies after [from], in the array without that element; moving an
    element onto its own index changes nothing; on [[A,B,C,D]],
    [moveStep(0,2)] gives [[B,A,C,D]], [moveStep(3,0)] gives [[D,A,B,C]]
    and [moveStep(1,1)] gives [[A,B,C,D]]. *)
Theorem moveStep_remove_then_insert
  (steps : list JSValue) (from to : nat) (A B C D : JSValue) :
  (from < length steps)%nat ->
  (to < length steps)%nat ->
  (exists x,
      steps !! from = Some x /\
      moveStep steps (Z.of_nat from) (Z.of_nat to)
      = insert_at (if (from <? to)%nat then (to - 1)%nat else to) x
          (remove_at from steps)) /\
  moveStep steps (Z.of_nat from) (Z.of_nat from) = steps /\
  moveStep [A; B; C; D] 0 2 = [B; A; C; D] /\
  moveStep [A; B; C; D] 3 0 = [D; A; B; C] /\
  moveStep [A; B; C; D] 1 1 = [A; B; C; D].
Proof.
  intros Hfrom Hto.
  destruct (lookup_lt_is_Some_2 steps from Hfrom) as [x Hx].
  split; [|split; [|repeat split]].
  - exists x. split; [exact Hx|]. by apply moveStep_in_range.
  - rewrite (moveStep_in_range steps from from x Hx).
    rewrite Nat.ltb_irrefl. by apply insert_remove_at.
Qed.

Lemma moveStep_remove_then_insert_witness :
  let steps := [JSString "A"; JSString "B"; JSString "C"] in
  (exists x,
      steps !! 0%nat = Some x /\
      moveStep steps 0 2 = insert_at 1 x (remove_at 0 steps)) /\
  moveStep steps 0 0 = steps.
Proof.
  intros steps.
  destruct (moveStep_remove_then_insert steps 0 2 JSNull JSNull JSNull JSNull)
    as (Hmove & Hsame & _).
  - simpl; lia.
  - simpl; lia.
  - split; [exact Hmove | exact Hsame].
Defined.

(** C10: with [from] at or beyond the length [n] of the array,
    [moveStep] is not a no-op: nothing is removed, [undefined] is
    inserted, and the result has [n + 1] elements, one of which is not
    an object. *)
Theorem moveStep_from_out_of_range (steps : list JSValue) (from to : Z) :
  Z.of_nat (length steps) <= from ->
  length (moveStep steps from to) = S (length steps) /\
  filter_index (fun i => negb (i =? from)) steps = steps /\
  In JSUndefined (moveStep steps from to) /\
  isObject JSUndefined = false /\
  moveStep steps from to <> steps.
Proof.
  intros Hfrom.
  assert (Hrem : filter_index (fun i => negb (i =? from)) steps = steps).
  { unfold filter_index. apply filter_from_ne_out. lia. }
  assert (Hidx : index steps from = JSUndefined).
  { unfold index. destruct (Z.ltb_spec from 0); [done|].
    rewrite lookup_ge_None_2; [done|lia]. }
  assert (Hlen : length (moveStep steps from to) = S (length steps)).
  { unfold moveStep. rewrite Hrem. unfold filter_index.
    rewrite filter_from_lt, filter_from_ge.
    rewrite !length_app, length_take, length_drop. simpl. lia. }
  repeat split; try done.
  - unfold moveStep. rewrite Hidx. apply in_or_app. right. by left.
  - intros Heq. rewrite Heq in Hlen. lia.
Qed.

Lemma moveStep_from_out_of_range_witness :
  length (moveStep [JSObject []] 1 0) = 2%nat /\
  In JSUndefined (moveStep [JSObject []] 1 0).
Proof.
  destruct (moveStep_from_out_of_range [JSObject []] 1 0) as (Hlen & _ & Hin & _).
  - simpl; lia.
  - split; [exact Hlen | exact Hin].
Defined.

(** ** The transaction-id pattern on examples *)

Example extract_txids_sentence :
  extract_txids "Invocation 0xAb12 sent" = ["0xAb12"%string].
Proof. reflexivity. Qed.

(** A match takes the white space after the id with it: of two ids one
    blank apart only the first is found. *)
Example extract_txids_one_blank_apart :
  extract_txids "0xab 0xcd" = ["0xab"%string].
Proof. reflexivity. Qed.

Example extract_txids_two_blanks_apart :
  extract_txids "0xab  0xcd" = ["0xab"; "0xcd"]%string.
Proof. reflexivity. Qed.

Example extract_txids_not_hex :
  extract_txids "0x 0xg1 x0ab 10xab" = [].
Proof. reflexivity. Qed.

(** ** The poll cycle over the recent transactions *)

Lemma poll_all_map (connection : option Connection) (txs : list RecentTransaction) :
  poll_all connection txs
  = (map (fun t => fst (poll_entry connection t)) txs,
     concat (map (fun t => snd (poll_entry connection t)) txs)).
Proof.
  induction txs as [|t txs IH]; simpl; [done|].
  rewrite IH. by destruct (poll_entry connection t).
Qed.

Lemma poll_entry_confirmed (connection : option Connection) (t : RecentTransaction) :
  has_confirmations t = true -> poll_entry connection t = (t, []).
Proof. intros Hc. unfold poll_entry. by rewrite Hc. Qed.

Lemma poll_entry_events (connection : option Connection) (t : RecentTransaction) :
  snd (poll_entry connection t) = []
  \/ has_confirmations t = false
     /\ snd (poll_entry connection t) = [EvGetRawTransaction (txid t) true].
Proof.
  unfold poll_entry. destruct (has_confirmations t); [by left|].
  unfold query_transaction.
  destruct connection as [[bi [rpc|]]|]; simpl; auto.
Qed.



Lemma poll_entry_txid (connection : option Connection) (t : RecentTransaction) :
  txid (fst (poll_entry connection t)) = txid t.
Proof.
  unfold poll_entry. destruct (has_confirmations t); [done|].
  destruct (query_transaction connection (txid t)) as [[tx'| |] evs]; simpl; try done.
  destruct (get_prop tx' "vmstate"); done.
Qed.

Lemma poll_all_txids (connection : option Connection) (txs : list RecentTransaction) :
  map txid (fst (poll_all connection txs)) = map txid txs.
Proof.
  rewrite poll_all_map; simpl. rewrite map_map.
  apply map_ext. intros t. apply poll_entry_txid.
Qed.

Lemma periodicViewStateUpdate_returned `{Host} (fuel : nat) (c c' : Controller) :
  periodicViewStateUpdate fuel c = Returned c' ->
  recentTransactions (viewState c')
  = fst (poll_all (activeConnection c) (recentTransactions (viewState c))).
Proof.
  unfold periodicViewStateUpdate.
  destruct (poll_all (activeConnection c) (recentTransactions (viewState c)))
    as [txs evs]; simpl.
  destruct (augmentAutoCompleteData fuel _ _) as [[[d h] evs']| |]; simpl;
    intros Heq; inversion Heq; subst; reflexivity.
Qed.

(** ** [augmentAutoCompleteData] on the store *)

Lemma read_data_eq (h : Heap) (l p hs m : loc) :
  h !! l = Some (ObjData p hs m) -> read_data h l = Returned (p, hs, m).
Proof. intros Hl. unfold read_data. by rewrite Hl. Qed.

Lemma read_paths_eq (h : Heap) (l : loc) (d : list (string * list string)) :
  h !! l = Some (ObjPaths d) -> read_paths h l = Returned d.
Proof. intros Hl. unfold read_paths. by rewrite Hl. Qed.

Lemma read_hashes_eq (h : Heap) (l : loc) (d : list (string * option string)) :
  h !! l = Some (ObjHashes d) -> read_hashes h l = Returned d.
Proof. intros Hl. unfold read_hashes. by rewrite Hl. Qed.

Lemma read_manifests_eq (h : Heap) (l : loc) (d : list (string * ContractManifest)) :
  h !! l = Some (ObjManifests d) -> read_manifests h l = Returned d.
Proof. intros Hl. unfold read_manifests. by rewrite Hl. Qed.

Section Augment.
Context `{Host}.
Local Open Scope nat_scope.

Variables (h0 : Heap) (m : loc).

Lemma augmenting_set_hashes (h : Heap) (d : list (string * option string)) :
  augmenting h0 m h -> augmenting h0 m (<[length h0 + 2 := ObjHashes d]> h).
Proof.
  intros (Hlen & Hold & Hres & Hp & Hh). unfold augmenting.
  rewrite length_insert. split; [done|]. split; [|split; [|split]].
  - intros l Hl. rewrite list_lookup_insert_ne by lia. by apply Hold.
  - rewrite list_lookup_insert_ne by lia. exact Hres.
  - rewrite list_lookup_insert_ne by lia. exact Hp.
  - exists d. apply list_lookup_insert_eq. lia.
Qed.

Lemma augmenting_set_paths (h : Heap) (d : list (string * list string)) :
  augmenting h0 m h -> augmenting h0 m (<[length h0 + 1 := ObjPaths d]> h).
Proof.
  intros (Hlen & Hold & Hres & Hp & Hh). unfold augmenting.
  rewrite length_insert. split; [done|]. split; [|split; [|split]].
  - intros l Hl. rewrite list_lookup_insert_ne by lia. by apply Hold.
  - rewrite list_lookup_insert_ne by lia. exact Hres.
  - exists d. apply list_lookup_insert_eq. lia.
  - rewrite list_lookup_insert_ne by lia. exact Hh.
Qed.

Lemma alias_loop_returns (baseHref : string) (fuel i : nat)
  (contractPaths : list string) (h : Heap) :
  (forall p, path_isAbsolute (path_relative baseHref p) = false) ->
  augmenting h0 m h ->
  length (drop i contractPaths) + absolute_count (drop i contractPaths) < fuel ->
  exists contractPaths' h',
    alias_loop fuel baseHref i contractPaths (length h0) h
    = Returned (contractPaths', h')
    /\ augmenting h0 m h'.
Proof.
  intros Hrel. revert i contractPaths h.
  induction fuel as [|fuel IH]; intros i arr h Hinv Hfuel; [lia|].
  simpl. destruct (arr !! i) as [p|] eqn:Hp.
  - pose proof (lookup_lt_Some _ _ _ Hp) as Hi.
    rewrite (drop_S _ _ _ Hp) in Hfuel. unfold absolute_count in Hfuel.
    rewrite filter_cons in Hfuel. simpl in Hfuel.
    destruct (path_isAbsolute p) eqn:Habs.
    + destruct Hinv as (Hlen & Hold & Hres & Hps & [d Hd]).
      rewrite (read_data_eq _ _ _ _ _ Hres). simpl.
      rewrite (read_hashes_eq _ _ _ Hd). simpl.
      apply IH.
      * apply augmenting_set_hashes. unfold augmenting; eauto 10.
      * rewrite drop_app_le by lia. unfold absolute_count.
        rewrite filter_app, !length_app. simpl.
        rewrite filter_cons, filter_nil.
        destruct (decide (path_isAbsolute (path_relative baseHref p) = true))
          as [Hyes|_]; [rewrite Hrel in Hyes; discriminate|].
        destruct (decide (true = true)) as [_|?]; [|done].
        simpl in *. lia.
    + apply IH; [done|].
      destruct (decide (false = true)) as [?|_]; [discriminate|].
      unfold absolute_count. lia.
  - eauto.
Qed.

Lemma absolute_count_le (l : list string) : absolute_count l <= length l.
Proof. unfold absolute_count. apply length_filter. Qed.

Lemma dict_get_keys {V : Type} (k : string) (d : list (string * V)) :
  In k (dict_keys d) -> is_Some (dict_get k d).
Proof.
  induction d as [|[k' v] d IH]; simpl; [done|].
  intros [->|Hin].
  - rewrite String.eqb_refl. eauto.
  - destruct (String.eqb k k'); eauto.
Qed.

Lemma augment_hashes_returns (baseHref : string) (fuel : nat) (data : loc)
  (p hs : loc) (dp : list (string * list string)) (keys : list string) (h : Heap) :
  (forall q, path_isAbsolute (path_relative baseHref q) = false) ->
  data < length h0 ->
  h0 !! data = Some (ObjData p hs m) ->
  p < length h0 ->
  h0 !! p = Some (ObjPaths dp) ->
  (forall k paths, dict_get k dp = Some paths -> 2 * length paths < fuel) ->
  (forall k, In k keys -> In k (dict_keys dp)) ->
  augmenting h0 m h ->
  exists h',
    augment_hashes fuel baseHref data (length h0) keys h = Returned h'
    /\ augmenting h0 m h'.
Proof.
  intros Hrel Hdata Hd Hp Hdp Hfuel. revert h.
  induction keys as [|k keys IH]; intros h Hkeys Hinv; simpl; [eauto|].
  unfold augment_hash.
  pose proof Hinv as (Hlen & Hold & Hres & Hps & Hhs).
  rewrite (read_data_eq h data p hs m) by (by rewrite (Hold data Hdata)). simpl.
  rewrite (read_paths_eq h p dp) by (by rewrite (Hold p Hp)). simpl.
  destruct (dict_get_keys k dp) as [paths Hpaths]; [apply Hkeys; by left|].
  rewrite Hpaths.
  destruct (alias_loop_returns baseHref fuel 0 paths h Hrel Hinv)
    as (arr' & h1 & -> & Hinv1).
  { rewrite drop_0. pose proof (absolute_count_le paths).
    specialize (Hfuel k paths Hpaths). lia. }
  simpl.
  pose proof Hinv1 as (Hlen1 & Hold1 & Hres1 & [d1 Hd1] & Hhs1).
  rewrite (read_data_eq _ _ _ _ _ Hres1). simpl.
  rewrite (read_paths_eq _ _ _ Hd1). simpl.
  apply IH.
  - intros k' Hk'. apply Hkeys. by right.
  - by apply augmenting_set_paths.
Qed.

(** The first half of [augmentAutoCompleteData] returns, on a store
    where [data] is well formed, when relative paths are not absolute
    and the fuel covers the arrays; it leaves every object of the store
    it started from as it was. *)
Lemma augment_paths_returns (fuel : nat) (documentPath : string) (data : loc)
  (p hs : loc) (dp : list (string * list string)) (dh : list (string * option string)) :
  (forall q, path_isAbsolute (path_relative (path_dirname documentPath) q) = false) ->
  h0 !! data = Some (ObjData p hs m) ->
  h0 !! p = Some (ObjPaths dp) ->
  h0 !! hs = Some (ObjHashes dh) ->
  (forall k paths, dict_get k dp = Some paths -> 2 * length paths < fuel) ->
  exists h1,
    augment_paths fuel documentPath data h0 = Returned (length h0, h1)
    /\ augmenting h0 m h1.
Proof.
  intros Hrel Hd Hp Hh Hfuel.
  pose proof (lookup_lt_Some _ _ _ Hd) as Hdlt.
  pose proof (lookup_lt_Some _ _ _ Hp) as Hplt.
  pose proof (lookup_lt_Some _ _ _ Hh) as Hhlt.
  unfold augment_paths, alloc.
  rewrite (read_data_eq _ _ _ _ _ Hd). simpl.
  set (hA := h0 ++ [ObjData p hs m]).
  assert (HA : hA !! length h0 = Some (ObjData p hs m)).
  { unfold hA. by rewrite lookup_app_r, Nat.sub_diag by lia. }
  rewrite (read_data_eq _ _ _ _ _ HA). simpl.
  rewrite (read_paths_eq hA p dp) by (unfold hA; by rewrite lookup_app_l). simpl.
  assert (HlenA : length hA = length h0 + 1).
  { unfold hA. rewrite length_app. simpl. lia. }
  set (hB := <[length h0 := ObjData (length hA) hs m]> (hA ++ [ObjPaths dp])).
  assert (HB : hB !! length h0 = Some (ObjData (length hA) hs m)).
  { unfold hB. apply list_lookup_insert_eq. rewrite length_app. lia. }
  rewrite (read_data_eq _ _ _ _ _ HB). simpl.
  assert (HBold : forall l, l < length h0 -> hB !! l = h0 !! l).
  { intros l Hl. unfold hB. rewrite list_lookup_insert_ne by lia.
    rewrite lookup_app_l by lia. unfold hA. by rewrite lookup_app_l. }
  rewrite (read_hashes_eq hB hs dh) by (by rewrite (HBold hs Hhlt)). simpl.
  assert (HlenB : length hB = length h0 + 2).
  { unfold hB. rewrite length_insert, length_app. simpl. lia. }
  set (hC := <[length h0 := ObjData (length hA) (length hB) m]> (hB ++ [ObjHashes dh])).
  assert (HC : augmenting h0 m hC).
  { unfold augmenting, hC. rewrite length_insert, length_app. simpl.
    split; [lia|]. split; [|split; [|split]].
    - intros l Hl. rewrite list_lookup_insert_ne by lia.
      rewrite lookup_app_l by lia. by apply HBold.
    - rewrite list_lookup_insert_eq by (rewrite length_app; lia).
      by rewrite HlenA, HlenB.
    - exists dp. rewrite list_lookup_insert_ne by lia.
      rewrite lookup_app_l by lia. unfold hB.
      rewrite list_lookup_insert_ne by lia.
      rewrite lookup_app_r by lia. rewrite HlenA.
      by replace (length h0 + 1 - (length h0 + 1)) with 0 by lia.
    - exists dh. rewrite list_lookup_insert_ne by lia.
      rewrite lookup_app_r by lia. rewrite HlenB.
      by replace (length h0 + 2 - (length h0 + 2)) with 0 by lia. }
  pose proof HC as (_ & HCold & _).
  rewrite (read_data_eq hC data p hs m) by (by rewrite (HCold data Hdlt)). simpl.
  rewrite (read_paths_eq hC p dp) by (by rewrite (HCold p Hplt)). simpl.
  destruct (augment_hashes_returns (path_dirname documentPath) fuel data p hs dp
              (dict_keys dp) hC Hrel Hdlt Hd Hplt Hp Hfuel) as (h1 & -> & Hinv1);
    [auto|exact HC|].
  simpl. eauto.
Qed.

End Augment.

Section Manifests.
Local Open Scope nat_scope.

Lemma fetch_manifests_spec (rpc : RpcClient) (result p hs m : loc)
  (hashes : list string) (h : Heap) (d : list (string * ContractManifest)) :
  h !! result = Some (ObjData p hs m) ->
  h !! m = Some (ObjManifests d) ->
  fetch_manifests rpc result hashes h
  = (<[m := ObjManifests (fold_left (merge_manifest rpc) hashes d)]> h,
     map EvGetContractState hashes).
Proof.
  revert h d. induction hashes as [|k hashes IH]; intros h d Hres Hm; simpl.
  - by rewrite list_insert_id.
  - assert (Hne : m <> result) by (intros ->; congruence).
    pose proof (lookup_lt_Some _ _ _ Hm) as Hlt.
    unfold fetch_manifest, merge_manifest at 2.
    destruct (getContractState rpc k) as [manifest|].
    + rewrite (read_data_eq _ _ _ _ _ Hres). simpl.
      rewrite (read_manifests_eq _ _ _ Hm). simpl.
      rewrite (IH _ (dict_set (abi_hash manifest) manifest d)).
      * by rewrite list_insert_insert_eq.
      * by rewrite list_lookup_insert_ne.
      * by apply list_lookup_insert_eq.
    + by rewrite (IH h d).
Qed.


End Manifests.

(** [augmentAutoCompleteData] with an RPC client at hand: the store it
    leaves is the one of the path loop with the manifests of the
    original data object written over. *)
Lemma augment_with_client `{Host}
  (fuel : nat) (c : Controller) (data p hs m : loc)
  (dp : list (string * list string)) (dh : list (string * option string))
  (dm : list (string * ContractManifest))
  (conn : Connection) (rpc : RpcClient) (hashes : list string) :
  (forall q,
      path_isAbsolute (path_relative (path_dirname (fsPath (document c))) q) = false) ->
  heap c !! data = Some (ObjData p hs m) ->
  heap c !! p = Some (ObjPaths dp) ->
  heap c !! hs = Some (ObjHashes dh) ->
  heap c !! m = Some (ObjManifests dm) ->
  (forall k paths, dict_get k dp = Some paths -> (2 * length paths < fuel)%nat) ->
  activeConnection c = Some conn ->
  rpcClient conn = Some rpc ->
  contract_hashes (fileContents (viewState c)) = Returned hashes ->
  exists h1,
    augment_paths fuel (fsPath (document c)) data (heap c)
    = Returned (length (heap c), h1) /\
    augmenting (heap c) m h1 /\
    augmentAutoCompleteData fuel c data
    = Returned (length (heap c),
                <[m := ObjManifests (fold_left (merge_manifest rpc) hashes dm)]> h1,
                map EvGetContractState hashes).
Proof.
  intros Hrel Hd Hp Hh Hm Hfuel Hconn Hrpc Hhashes.
  destruct (augment_paths_returns (heap c) m fuel (fsPath (document c)) data
              p hs dp dh Hrel Hd Hp Hh Hfuel) as (h1 & Hpaths & Hinv).
  exists h1. split; [exact Hpaths|]. split; [exact Hinv|].
  destruct Hinv as (Hlen & Hold & Hres & _ & _).
  pose proof (lookup_lt_Some _ _ _ Hm) as Hmlt.
  assert (Hm1 : h1 !! m = Some (ObjManifests dm)) by (by rewrite Hold).
  unfold augmentAutoCompleteData. rewrite Hpaths. simpl. rewrite Hconn.
  destruct conn as [bi r]. simpl in Hrpc. subst r.
  rewrite Hhashes. simpl.
  by rewrite (fetch_manifests_spec rpc _ _ _ m hashes h1 dm Hres Hm1).
Qed.

(** The contract paths and the contract hashes of the data object handed
    to [augmentAutoCompleteData] are the same objects afterwards. *)
Lemma augment_keeps_base_paths_and_hashes `{Host}
  (fuel : nat) (c : Controller) (data p hs m : loc)
  (dp : list (string * list string)) (dh : list (string * option string))
  (dm : list (string * ContractManifest))
  (conn : Connection) (rpc : RpcClient) (hashes : list string) :
  (forall q,
      path_isAbsolute (path_relative (path_dirname (fsPath (document c))) q) = false) ->
  heap c !! data = Some (ObjData p hs m) ->
  heap c !! p = Some (ObjPaths dp) ->
  heap c !! hs = Some (ObjHashes dh) ->
  heap c !! m = Some (ObjManifests dm) ->
  (forall k paths, dict_get k dp = Some paths -> (2 * length paths < fuel)%nat) ->
  activeConnection c = Some conn ->
  rpcClient conn = Some rpc ->
  contract_hashes (fileContents (viewState c)) = Returned hashes ->
  exists result h2 evs,
    augmentAutoCompleteData fuel c data = Returned (result, h2, evs) /\
    h2 !! data = Some (ObjData p hs m) /\
    h2 !! p = Some (ObjPaths dp) /\
    h2 !! hs = Some (ObjHashes dh).
Proof.
  intros Hrel Hd Hp Hh Hm Hfuel Hconn Hrpc Hhashes.
  destruct (augment_with_client fuel c data p hs m dp dh dm conn rpc hashes
              Hrel Hd Hp Hh Hm Hfuel Hconn Hrpc Hhashes)
    as (h1 & _ & (Hlen & Hold & _) & Haug).
  eexists _, _, _. split; [exact Haug|].
  pose proof (lookup_lt_Some _ _ _ Hd). pose proof (lookup_lt_Some _ _ _ Hp).
  pose proof (lookup_lt_Some _ _ _ Hh).
  repeat split.
  - rewrite list_lookup_insert_ne by congruence. by rewrite Hold.
  - rewrite list_lookup_insert_ne by congruence. by rewrite Hold.
  - rewrite list_lookup_insert_ne by congruence. by rewrite Hold.
Qed.


Lemma posix_relative_not_absolute (base q : string) :
  posix_isAbsolute (below_relative base q) = false.
Proof.
  unfold below_relative.
  generalize (chars (if String.prefix base q
                     then String.substring (String.length base)
                            (String.length q - String.length base) q
                     else q)).
  intros l. induction l as [|a l IH]; simpl; [done|].
  destruct (Ascii.eqb a "/") eqn:Ha; [exact IH|].
  simpl. exact Ha.
Qed.


Lemma fetch_manifests_events (rpc : RpcClient) (result : loc)
  (hashes : list string) (h : Heap) :
  snd (fetch_manifests rpc result hashes h) = map EvGetContractState hashes.
Proof.
  revert h. induction hashes as [|k hashes IH]; intros h; simpl; [done|].
  specialize (IH (match fetch_manifest rpc result k h with
                  | Returned h' => h'
                  | _ => h
                  end)).
  destruct (fetch_manifests rpc result hashes _) as [h'' evs]. simpl in *.
  by rewrite IH.
Qed.

(** What a poll cycle adds to the trace: the transaction queries of the
    cycle, then the manifest fetches. *)
Lemma periodicViewStateUpdate_trace `{Host} (fuel : nat) (c c' : Controller) :
  periodicViewStateUpdate fuel c = Returned c' ->
  exists hashes,
    trace c'
    = trace c
      ++ snd (poll_all (activeConnection c) (recentTransactions (viewState c)))
      ++ map EvGetContractState hashes.
Proof.
  unfold periodicViewStateUpdate.
  destruct (poll_all (activeConnection c) (recentTransactions (viewState c)))
    as [txs evs]; simpl.
  unfold augmentAutoCompleteData; simpl.
  destruct (augment_paths fuel _ _ _) as [[result h]| |]; simpl; try discriminate.
  destruct (activeConnection c) as [[bi [rpc|]]|]; simpl.
  - destruct (contract_hashes _) as [hashes| |]; simpl; try discriminate.
    pose proof (fetch_manifests_events rpc result hashes h) as Hev.
    destruct (fetch_manifests rpc result hashes h) as [h' evs']. simpl in Hev.
    intros [= <-]. simpl. exists hashes. by rewrite Hev, app_assoc.
  - intros [= <-]. simpl. exists []. by rewrite app_assoc.
  - intros [= <-]. simpl. exists []. by rewrite app_assoc.
Qed.

(** C1, as the code has it: the guard of the poll cycle is the
    [confirmations] field of the stored [tx], not the state.  An entry
    whose [tx] carries a truthy [confirmations] is not queried and is kept
    as it is; every query of the cycle is for an entry without it. *)
Theorem confirmed_entries_are_not_requeried `{Host}
  (fuel : nat) (c c' : Controller) (i : nat) (t : RecentTransaction) :
  periodicViewStateUpdate fuel c = Returned c' ->
  recentTransactions (viewState c) !! i = Some t ->
  has_confirmations t = true ->
  poll_entry (activeConnection c) t = (t, []) /\
  recentTransactions (viewState c') !! i = Some t /\
  forall id verbose,
    In (EvGetRawTransaction id verbose) (drop (length (trace c)) (trace c')) ->
    exists u,
      In u (recentTransactions (viewState c)) /\
      has_confirmations u = false /\ txid u = id.
Proof.
  intros Hret Ht Hc. split; [by apply poll_entry_confirmed|]. split.
  - rewrite (periodicViewStateUpdate_returned fuel c c' Hret), poll_all_map; simpl.
    rewrite list_lookup_fmap, Ht; simpl.
    by rewrite (poll_entry_confirmed _ _ Hc).
  - destruct (periodicViewStateUpdate_trace fuel c c' Hret) as [hashes ->].
    rewrite drop_app_length. intros id verbose Hin.
    apply in_app_or in Hin as [Hin|Hin].
    + rewrite poll_all_map in Hin; simpl in Hin.
      apply in_concat in Hin as (evs & Hevs & Hin).
      apply in_map_iff in Hevs as (u & <- & Hu).
      destruct (poll_entry_events (activeConnection c) u) as [Hnil|[Hun Hev]].
      * rewrite Hnil in Hin. destruct Hin.
      * rewrite Hev in Hin. destruct Hin as [[= <- <-]|[]]. eauto.
    + apply in_map_iff in Hin as (k & Hk & _). discriminate.
Qed.

Lemma confirmed_entries_are_not_requeried_witness :
  let c' := returned_or tracking_panel (periodicViewStateUpdate 3 tracking_panel) in
  poll_entry (activeConnection tracking_panel) confirmed_entry = (confirmed_entry, [])
  /\ recentTransactions (viewState c') !! 1%nat = Some confirmed_entry.
Proof.
  intros c'.
  destruct (confirmed_entries_are_not_requeried (H := posix_host)
              3 tracking_panel c' 1 confirmed_entry) as (Hentry & Hkept & _).
  - reflexivity.
  - reflexivity.
  - reflexivity.
  - split; [exact Hentry | exact Hkept].
Defined.

(** C1 as stated fails: an entry that a cycle has turned [ok] from an
    answer without [confirmations] is queried again by the next cycle and
    overwritten with what the node says then. *)
Lemma resolved_entry_requeried_and_overwritten :
  state seen_halted = ok /\
  exists c',
    periodicViewStateUpdate 3
      (panel (Some (connection_to (node_answering (Some fault_confirmed)))) "[]" []
         [seen_halted])
    = Returned c' /\
    trace c' = [EvGetRawTransaction "0xab" true] /\
    recentTransactions (viewState c')
    = [ {| txid := "0xab"; blockchain := "local";
           tx := fault_confirmed; state := error |} ].
Proof. split; [reflexivity|]. eexists. split; [reflexivity|]. split; reflexivity. Qed.

(** C3 on the code: the copy made by [augmentAutoCompleteData] shares
    the [contractManifests] object of its argument, and a fetched
    manifest is written into it.  On [two_step_panel] the data object at
    [0] has its manifests at [3], empty before the call and holding the
    manifest of ["0xc1"] after it; its contract paths and contract hashes
    are as before. *)
Theorem augment_writes_into_base_manifests :
  exists h' evs,
    augmentAutoCompleteData 3 two_step_panel 0%nat = Returned (4%nat, h', evs) /\
    heap two_step_panel !! 0%nat = Some (ObjData 1 2 3) /\
    h' !! 4%nat = Some (ObjData 5 6 3) /\
    heap two_step_panel !! 3%nat = Some (ObjManifests []) /\
    h' !! 3%nat = Some (ObjManifests [("0xc1"%string, token_manifest)]) /\
    h' !! 1%nat = heap two_step_panel !! 1%nat /\
    h' !! 2%nat = heap two_step_panel !! 2%nat.
Proof. eexists _, _. split; [reflexivity|]. repeat split. Qed.

(** ** [onFileUpdate] *)







(** ** [runFile] *)

Lemma unshift_all {A B : Type} (f : A -> B) (ids : list A) (old : list B) :
  fold_left (fun acc id => f id :: acc) ids old = rev (map f ids) ++ old.
Proof.
  revert old. induction ids as [|id ids IH]; intros old; simpl; [done|].
  by rewrite IH, <- app_assoc.
Qed.

Lemma record_transactions_eq (conn : Connection) (message : string)
  (recent : list RecentTransaction) :
  record_transactions conn message recent
  = take MAX_RECENT_TXS
      (rev (map (pending_transaction conn) (extract_txids message)) ++ recent).
Proof.
  unfold record_transactions. rewrite unshift_all.
  destruct (Nat.ltb_spec MAX_RECENT_TXS
              (length (rev (map (pending_transaction conn) (extract_txids message))
                       ++ recent))) as [Hlt|Hge]; [done|].
  by rewrite take_ge.
Qed.


Lemma ensure_connection_recent `{Host} (fuel : nat) (w : World) (c c1 : Controller) :
  ensure_connection fuel w c = Returned c1 ->
  (is_Some (activeConnection c) /\ c1 = c) \/
  (activeConnection c = None /\
   recentTransactions (viewState c1)
   = fst (poll_all (connect_result w) (recentTransactions (viewState c)))).
Proof.
  unfold ensure_connection. destruct (activeConnection c) as [conn|] eqn:Hconn.
  - intros [= <-]. left. eauto.
  - intros Hret. right. split; [done|].
    by rewrite (periodicViewStateUpdate_returned _ _ _ Hret).
Qed.







(** ** Transaction ids of the tracked entries *)

Lemma onFileUpdate_recent `{Host} (c : Controller) :
  recentTransactions (viewState (onFileUpdate c)) = recentTransactions (viewState c).
Proof.
  unfold onFileUpdate. destruct (isClosed c); [done|].
  destruct (getText (document c)) as [text|]; [|done].
  by destruct (JSONC_parse _).
Qed.

Lemma periodicViewStateUpdate_txids `{Host} (fuel : nat) (c c' : Controller) :
  periodicViewStateUpdate fuel c = Returned c' ->
  map txid (recentTransactions (viewState c'))
  = map txid (recentTransactions (viewState c)).
Proof.
  intros Hret. rewrite (periodicViewStateUpdate_returned _ _ _ Hret).
  apply poll_all_txids.
Qed.

Lemma ensure_connection_txids `{Host} (fuel : nat) (w : World) (c c1 : Controller) :
  ensure_connection fuel w c = Returned c1 ->
  map txid (recentTransactions (viewState c1))
  = map txid (recentTransactions (viewState c)).
Proof.
  unfold ensure_connection. destruct (activeConnection c).
  - by intros [= <-].
  - intros Hret. by rewrite (periodicViewStateUpdate_txids _ _ _ Hret).
Qed.

(** What a returning [runFile] has done to the list: nothing beyond the
    poll cycle after connecting, or the recording of the runner's
    transactions. *)
Lemma runFile_recent `{Host} (fuel : nat) (w : World) (path : string)
  (c c' : Controller) :
  runFile fuel w path c = Returned c' ->
  exists c1,
    ensure_connection fuel w c = Returned c1 /\
    (recentTransactions (viewState c') = recentTransactions (viewState c1) \/
     exists conn,
       recentTransactions (viewState c')
       = record_transactions conn (message (runSync_result w))
           (recentTransactions (viewState c1))).
Proof.
  unfold runFile.
  destruct (ensure_connection fuel w c) as [c1| |]; simpl; try discriminate.
  intros Hret. exists c1. split; [done|].
  destruct (activeConnection c1) as [conn|]; [|injection Hret as <-; by left].
  destruct (String.eqb _ _); [|injection Hret as <-; by left].
  destruct (multipleChoice_result w) as [account|]; [|injection Hret as <-; by left].
  destruct (String.eqb account EmptyString); [injection Hret as <-; by left|].
  destruct (isError (runSync_result w)); injection Hret as <-; [by left|].
  right. by exists conn.
Qed.







(** * Further properties of the handlers *)

(** ** The list requests *)

Lemma map_from_length {A B : Type} (f : A -> Z -> B) (k : Z) (l : list A) :
  length (map_from f k l) = length l.
Proof. revert k. induction l as [|x l IH]; intros k; simpl; [done|]. by rewrite IH. Qed.

Lemma map_from_lookup {A B : Type} (f : A -> Z -> B) (k : Z) (l : list A) (j : nat) :
  map_from f k l !! j = (fun x => f x (k + Z.of_nat j)) <$> l !! j.
Proof.
  revert k j. induction l as [|x l IH]; intros k j; simpl; [done|].
  destruct j as [|j]; simpl.
  - by rewrite Z.add_0_r.
  - rewrite IH. destruct (l !! j); simpl; [|done].
    do 2 f_equal. lia.
Qed.

(** X1: the [update] request replaces the step at index [i] by the
    object built from the request and leaves every other step and the
    length as they are; with [i] outside the array nothing changes. *)
Theorem updateStep_replaces_one (steps : list JSValue) (i : Z)
  (contract operation args : JSValue) :
  length (updateStep steps i contract operation args) = length steps /\
  (forall j x, steps !! j = Some x -> Z.of_nat j <> i ->
     updateStep steps i contract operation args !! j = Some x) /\
  (forall j, (j < length steps)%nat -> Z.of_nat j = i ->
     updateStep steps i contract operation args !! j
     = Some (step_object contract operation args)) /\
  (i < 0 \/ Z.of_nat (length steps) <= i ->
     updateStep steps i contract operation args = steps).
Proof.
  unfold updateStep, map_index. split; [apply map_from_length|].
  split; [|split].
  - intros j x Hj Hne. rewrite map_from_lookup, Hj. simpl.
    destruct (Z.eqb_spec (0 + Z.of_nat j) i); [lia|done].
  - intros j Hj <-. rewrite map_from_lookup.
    destruct (lookup_lt_is_Some_2 steps j Hj) as [x ->]. simpl.
    by rewrite Z.eqb_refl.
  - intros Hout. apply list_eq. intros j. rewrite map_from_lookup.
    destruct (steps !! j) as [x|] eqn:Hj; simpl; [|done].
    pose proof (lookup_lt_Some _ _ _ Hj).
    destruct (Z.eqb_spec (0 + Z.of_nat j) i); [lia|done].
Qed.

(** X2: the [deleteStep] request removes the step at an index inside the
    array, the others keeping their order, and the array gets one
    shorter; with the index outside the array nothing changes. *)
Theorem deleteStep_removes_one (steps : list JSValue) (i : Z) :
  (0 <= i < Z.of_nat (length steps) ->
     deleteStep steps i = remove_at (Z.to_nat i) steps /\
     S (length (deleteStep steps i)) = length steps) /\
  (i < 0 \/ Z.of_nat (length steps) <= i -> deleteStep steps i = steps).
Proof.
  unfold deleteStep, filter_index. split.
  - intros Hi. rewrite filter_from_ne_in by lia. rewrite Z.sub_0_r.
    split; [done|]. unfold remove_at.
    rewrite length_app, length_take, length_drop. lia.
  - intros Hout. apply filter_from_ne_out. lia.
Qed.

(** X3: [addStep] appends one empty step; deleting the step it added
    gives the array back, and moving it to the front puts the empty step
    before all the others. *)
Theorem addStep_then_delete_or_move (steps : list JSValue) :
  length (addStep steps) = S (length steps) /\
  addStep steps !! length steps = Some (JSObject []) /\
  deleteStep (addStep steps) (Z.of_nat (length steps)) = steps /\
  moveStep (addStep steps) (Z.of_nat (length steps)) 0 = JSObject [] :: steps.
Proof.
  unfold addStep.
  assert (Hlast : (steps ++ [JSObject []]) !! length steps = Some (JSObject [])).
  { by rewrite lookup_app_r, Nat.sub_diag by lia. }
  assert (Hrem : remove_at (length steps) (steps ++ [JSObject []]) = steps).
  { unfold remove_at. rewrite take_app_length.
    rewrite drop_ge by (rewrite length_app; simpl; lia). apply app_nil_r. }
  split; [rewrite length_app; simpl; lia|]. split; [exact Hlast|]. split.
  - unfold deleteStep, filter_index. rewrite filter_from_ne_in by lia.
    by rewrite Z.sub_0_r, Nat2Z.id.
  - change 0 with (Z.of_nat 0).
    rewrite (moveStep_in_range _ (length steps) 0 (JSObject []) Hlast).
    rewrite Hrem. reflexivity.
Qed.

Lemma remove_at_Permutation {A : Type} (i : nat) (x : A) (l : list A) :
  l !! i = Some x -> x :: remove_at i l ≡ₚ l.
Proof.
  intros Hx. unfold remove_at.
  rewrite <- (take_drop_middle l i x Hx) at 3.
  by rewrite Permutation_middle.
Qed.

Lemma insert_at_lookup {A : Type} (i : nat) (x : A) (l : list A) :
  (i <= length l)%nat -> insert_at i x l !! i = Some x.
Proof.
  intros Hi. unfold insert_at.
  rewrite lookup_app_r by (rewrite length_take; lia).
  rewrite length_take, Nat.min_l, Nat.sub_diag by lia. reflexivity.
Qed.

Lemma remove_insert_at {A : Type} (i : nat) (x : A) (l : list A) :
  (i <= length l)%nat -> remove_at i (insert_at i x l) = l.
Proof.
  intros Hi. unfold remove_at, insert_at.
  rewrite take_app_le by (rewrite length_take; lia).
  rewrite take_take, Nat.min_id.
  rewrite drop_app_ge by (rewrite length_take; lia).
  rewrite length_take, Nat.min_l by lia.
  replace (S i - i)%nat with 1%nat by lia. simpl. rewrite drop_0.
  apply take_drop.
Qed.

(** X4: with [from] inside the array, [moveStep] loses and duplicates
    nothing, whatever [to] is (negative and too large included): the
    result is a rearrangement of the steps. *)
Theorem moveStep_rearranges (steps : list JSValue) (from to : Z) :
  0 <= from < Z.of_nat (length steps) ->
  moveStep steps from to ≡ₚ steps /\
  length (moveStep steps from to) = length steps.
Proof.
  intros Hfrom.
  assert (Hperm : moveStep steps from to ≡ₚ steps).
  { destruct (lookup_lt_is_Some_2 steps (Z.to_nat from)) as [x Hx]; [lia|].
    unfold moveStep, filter_index, index.
    rewrite filter_from_ne_in by lia. rewrite filter_from_lt, filter_from_ge.
    destruct (Z.ltb_spec from 0); [lia|]. rewrite Hx. simpl.
    rewrite !Z.sub_0_r.
    rewrite <- Permutation_middle, take_drop.
    by apply remove_at_Permutation. }
  split; [exact Hperm|]. by rewrite Hperm.
Qed.

Lemma moveStep_rearranges_witness :
  moveStep [JSString "A"; JSString "B"; JSString "C"] 2 (-5)
  ≡ₚ [JSString "A"; JSString "B"; JSString "C"] /\
  length (moveStep [JSString "A"; JSString "B"; JSString "C"] 2 (-5)) = 3%nat.
Proof.
  apply (moveStep_rearranges [JSString "A"; JSString "B"; JSString "C"] 2 (-5)).
  simpl. lia.
Defined.

(** X5: moving a step to the index just after its own changes nothing,
    and every move inside the array is undone by moving the step from
    where it landed to its old index, one more when it landed before
    it. *)
Theorem moveStep_adjacent_and_undo (steps : list JSValue) (from to : nat) :
  (from < length steps)%nat ->
  (to <= length steps)%nat ->
  moveStep steps (Z.of_nat from) (Z.of_nat from + 1) = steps /\
  moveStep (moveStep steps (Z.of_nat from) (Z.of_nat to))
    (Z.of_nat (landing from to))
    (Z.of_nat (if (from <=? landing from to)%nat then from else S from))
  = steps.
Proof.
  intros Hfrom Hto.
  destruct (lookup_lt_is_Some_2 steps from Hfrom) as [x Hx].
  assert (Hrem : length (remove_at from steps) = (length steps - 1)%nat).
  { unfold remove_at. rewrite length_app, length_take, length_drop. lia. }
  split.
  - replace (Z.of_nat from + 1) with (Z.of_nat (S from)) by lia.
    rewrite (moveStep_in_range steps from (S from) x Hx).
    destruct (Nat.ltb_spec from (S from)); [|lia].
    replace (S from - 1)%nat with from by lia. by apply insert_remove_at.
  - rewrite (moveStep_in_range steps from to x Hx). fold (landing from to).
    assert (Hland : (landing from to <= length (remove_at from steps))%nat).
    { unfold landing. destruct (Nat.ltb_spec from to); lia. }
    rewrite (moveStep_in_range _ (landing from to) _ x)
      by (by apply insert_at_lookup).
    rewrite remove_insert_at by done.
    replace (if (landing from to <?
                 (if (from <=? landing from to)%nat then from else S from))%nat
             then ((if (from <=? landing from to)%nat then from else S from) - 1)%nat
             else if (from <=? landing from to)%nat then from else S from)
      with from.
    + by apply insert_remove_at.
    + destruct (Nat.leb_spec from (landing from to)).
      * destruct (Nat.ltb_spec (landing from to) from); lia.
      * destruct (Nat.ltb_spec (landing from to) (S from)); lia.
Qed.

Lemma moveStep_adjacent_and_undo_witness :
  let steps := [JSString "A"; JSString "B"; JSString "C"; JSString "D"] in
  moveStep steps 1 2 = steps /\
  moveStep (moveStep steps 0 3) 2 0 = steps.
Proof.
  intros steps.
  apply (moveStep_adjacent_and_undo steps 1 2); simpl; lia.
Defined.

(** ** More on the poll cycle *)




Lemma poll_entry_no_client (connection : option Connection) (t : RecentTransaction) :
  no_client connection = true -> poll_entry connection t = (t, []).
Proof.
  intros Hno. unfold poll_entry. destruct (has_confirmations t); [done|].
  destruct connection as [[bi [rpc|]]|]; try discriminate; reflexivity.
Qed.

Lemma poll_all_no_client (connection : option Connection) (txs : list RecentTransaction) :
  no_client connection = true -> poll_all connection txs = (txs, []).
Proof.
  intros Hno. induction txs as [|t txs IH]; simpl; [done|].
  by rewrite (poll_entry_no_client _ _ Hno), IH.
Qed.

(** X7: without an RPC client (no connection, or a connection that has
    none) a poll cycle that returns asks the node nothing and leaves the
    list of recent transactions as it was. *)
Theorem poll_cycle_without_client `{Host} (fuel : nat) (c c' : Controller) :
  no_client (activeConnection c) = true ->
  periodicViewStateUpdate fuel c = Returned c' ->
  recentTransactions (viewState c') = recentTransactions (viewState c) /\
  trace c' = trace c.
Proof.
  intros Hno Hret. split.
  - rewrite (periodicViewStateUpdate_returned fuel c c' Hret).
    by rewrite (poll_all_no_client _ _ Hno).
  - revert Hret. unfold periodicViewStateUpdate.
    rewrite (poll_all_no_client _ _ Hno). simpl.
    unfold augmentAutoCompleteData. simpl.
    destruct (augment_paths fuel _ _ _) as [[result h]| |]; simpl; try discriminate.
    destruct (activeConnection c) as [[bi [rpc|]]|]; try discriminate;
      intros [= <-]; simpl; by rewrite !app_nil_r.
Qed.

Lemma poll_cycle_without_client_witness :
  let c := panel None "[]" [] [submitted "0xab"] in
  let c' := returned_or c (periodicViewStateUpdate 3 c) in
  recentTransactions (viewState c') = [submitted "0xab"] /\ trace c' = [].
Proof.
  intros c c'.
  apply (poll_cycle_without_client (H := posix_host) 3 c c'); reflexivity.
Defined.

Lemma poll_cycles_confirmed (connections : list (option Connection))
  (txs : list RecentTransaction) (i : nat) (t : RecentTransaction) :
  txs !! i = Some t -> has_confirmations t = true ->
  poll_cycles connections txs !! i = Some t.
Proof.
  revert txs. induction connections as [|connection connections IH];
    intros txs Ht Hc; simpl; [done|].
  apply IH; [|done].
  rewrite poll_all_map; simpl. rewrite list_lookup_fmap, Ht. simpl.
  by rewrite (poll_entry_confirmed _ _ Hc).
Qed.

(** X8: an entry is settled by the first answer that carries a truthy
    [confirmations]: the cycle stores the answer with the state its
    [vmstate] gives, and no later cycle, against whatever connection,
    changes the entry again. *)
Theorem confirmed_answer_settles_entry
  (conn : Connection) (rpc : RpcClient) (answer : JSValue)
  (txs : list RecentTransaction) (i : nat) (t : RecentTransaction)
  (later : list (option Connection)) :
  txs !! i = Some t ->
  has_confirmations t = false ->
  rpcClient conn = Some rpc ->
  getRawTransaction rpc (txid t) true = Some answer ->
  truthy (default JSUndefined (get_prop answer "confirmations")) = true ->
  exists vmstate,
    get_prop answer "vmstate" = Some vmstate /\
    let settled :=
      {| txid := txid t; blockchain := blockchain t;
         tx := answer; state := classify vmstate |} in
    fst (poll_all (Some conn) txs) !! i = Some settled /\
    poll_cycles later (fst (poll_all (Some conn) txs)) !! i = Some settled.
Proof.
  intros Ht Hun Hrpc Hanswer Hconf.
  assert (Hobj : exists fields, answer = JSObject fields).
  { destruct answer; simpl in Hconf; try discriminate. eauto. }
  destruct Hobj as [fields ->].
  exists (default JSUndefined (dict_get "vmstate" fields)).
  split; [reflexivity|]. intros settled.
  assert (Hpolled : fst (poll_all (Some conn) txs) !! i = Some settled).
  { rewrite poll_all_map; simpl. rewrite list_lookup_fmap, Ht. simpl.
    unfold poll_entry, query_transaction. by rewrite Hun, Hrpc, Hanswer. }
  split; [exact Hpolled|].
  apply poll_cycles_confirmed; [exact Hpolled|].
  unfold has_confirmations, settled. simpl. exact Hconf.
Qed.

Lemma confirmed_answer_settles_entry_witness :
  let conn := connection_to (node_answering (Some halt_confirmed)) in
  let settled :=
    {| txid := "0xab"; blockchain := "local"; tx := halt_confirmed; state := ok |} in
  poll_cycles [None; Some (connection_to (node_answering (Some fault_confirmed)))]
    (fst (poll_all (Some conn) [submitted "0xab"])) !! 0%nat
  = Some settled.
Proof.
  intros conn settled.
  destruct (confirmed_answer_settles_entry conn
              (node_answering (Some halt_confirmed)) halt_confirmed
              [submitted "0xab"] 0 (submitted "0xab")
              [None; Some (connection_to (node_answering (Some fault_confirmed)))])
    as (vmstate & Hvm & _ & Hlater).
  - reflexivity.
  - reflexivity.
  - reflexivity.
  - reflexivity.
  - reflexivity.
  - injection Hvm as <-. exact Hlater.
Defined.

(** ** Invariants of the list of recent transactions *)

Lemma poll_entry_consistent (connection : option Connection) (t : RecentTransaction) :
  consistent t -> consistent (fst (poll_entry connection t)).
Proof.
  intros Ht. unfold poll_entry. destruct (has_confirmations t); [done|].
  destruct (query_transaction connection (txid t)) as [[tx'| |] evs]; simpl; try done.
  destruct (get_prop tx' "vmstate") as [vmstate|] eqn:Hvm; simpl; [|done].
  right. exists vmstate. by split.
Qed.

Lemma poll_all_consistent (connection : option Connection)
  (txs : list RecentTransaction) :
  Forall consistent txs -> Forall consistent (fst (poll_all connection txs)).
Proof.
  intros Hall. rewrite poll_all_map; simpl.
  induction Hall as [|t txs Ht _ IH]; simpl; constructor; [|done].
  by apply poll_entry_consistent.
Qed.

Lemma record_transactions_consistent (conn : Connection) (message : string)
  (recent : list RecentTransaction) :
  Forall consistent recent ->
  Forall consistent (record_transactions conn message recent).
Proof.
  intros Hall. rewrite record_transactions_eq.
  apply Forall_take, Forall_app. split; [|done].
  apply Forall_forall. intros t Hin%list_elem_of_In%in_rev.
  apply in_map_iff in Hin as (id & <- & _). by left.
Qed.

(** X9: in every panel reached from a fresh one, whatever the runner
    printed, the state of each tracked entry agrees with what is stored
    in it: the entry either has no transaction yet and is [pending], or
    its state is the classification of the stored transaction's
    [vmstate]. *)
Theorem tracked_states_agree_with_stored_tx `{Host}
  (fresh_only : bool) (c : Controller) :
  tracked fresh_only c ->
  Forall consistent (recentTransactions (viewState c)).
Proof.
  induction 1 as [c Hinit|c Hc IH|fuel c c' Hc IH Hpoll|fuel w path c c' Hc IH Hrun _].
  - rewrite Hinit. constructor.
  - by rewrite onFileUpdate_recent.
  - rewrite (periodicViewStateUpdate_returned _ _ _ Hpoll).
    by apply poll_all_consistent.
  - destruct (runFile_recent fuel w path c c' Hrun) as (c1 & Hens & Hcases).
    assert (Hc1 : Forall consistent (recentTransactions (viewState c1))).
    { destruct (ensure_connection_recent fuel w c c1 Hens) as [[_ ->]|[_ ->]];
        [done|by apply poll_all_consistent]. }
    destruct Hcases as [->|[conn ->]]; [done|].
    by apply record_transactions_consistent.
Qed.

(** X10: in every panel reached from a fresh one the list of recent
    transactions holds at most [MAX_RECENT_TXS] entries. *)
Theorem tracked_list_is_bounded `{Host} (fresh_only : bool) (c : Controller) :
  tracked fresh_only c ->
  (length (recentTransactions (viewState c)) <= MAX_RECENT_TXS)%nat.
Proof.
  induction 1 as [c Hinit|c Hc IH|fuel c c' Hc IH Hpoll|fuel w path c c' Hc IH Hrun _].
  - rewrite Hinit. simpl. lia.
  - by rewrite onFileUpdate_recent.
  - pose proof (periodicViewStateUpdate_txids _ _ _ Hpoll) as Htx.
    apply (f_equal length) in Htx. rewrite !length_map in Htx. lia.
  - destruct (runFile_recent fuel w path c c' Hrun) as (c1 & Hens & Hcases).
    pose proof (ensure_connection_txids fuel w c c1 Hens) as Htx.
    apply (f_equal length) in Htx. rewrite !length_map in Htx.
    destruct Hcases as [->|[conn ->]]; [lia|].
    rewrite record_transactions_eq, length_take. lia.
Qed.

Lemma busy_panel_tracked : tracked false busy_panel.
Proof.
  eapply (tracked_run false 3 (world None (Some "genesis"%string) false twelve_ids)
            "/home/u/invoke.json").
  - eapply (tracked_poll false 3 (connected_panel [])).
    + apply tracked_init. reflexivity.
    + reflexivity.
  - reflexivity.
  - discriminate.
Qed.

Lemma tracked_states_agree_with_stored_tx_witness :
  Forall consistent (recentTransactions (viewState busy_panel)).
Proof.
  apply (tracked_states_agree_with_stored_tx (H := posix_host) false busy_panel).
  exact busy_panel_tracked.
Defined.

Lemma tracked_list_is_bounded_witness :
  (length (recentTransactions (viewState busy_panel)) <= MAX_RECENT_TXS)%nat.
Proof.
  apply (tracked_list_is_bounded (H := posix_host) false busy_panel).
  exact busy_panel_tracked.
Defined.

Example busy_panel_ids :
  map txid (recentTransactions (viewState busy_panel))
  = ["0xc"; "0xb"; "0xa"; "0x9"; "0x8"; "0x7"; "0x6"; "0x5"; "0x4"; "0x3"]%string.
Proof. reflexivity. Qed.

(** ** What [runFile] does and does not do *)

Lemma periodicViewStateUpdate_frame `{Host} (fuel : nat) (c c' : Controller) :
  periodicViewStateUpdate fuel c = Returned c' ->
  fileContents (viewState c') = fileContents (viewState c) /\
  errorText (viewState c') = errorText (viewState c) /\
  collapseTransactions (viewState c') = collapseTransactions (viewState c) /\
  selectedTransactionId (viewState c') = selectedTransactionId (viewState c) /\
  document c' = document c /\
  isClosed c' = isClosed c /\
  activeConnection c' = activeConnection c /\
  autoComplete c' = autoComplete c.
Proof.
  unfold periodicViewStateUpdate.
  destruct (poll_all (activeConnection c) (recentTransactions (viewState c)))
    as [txs evs]; simpl.
  destruct (augmentAutoCompleteData fuel _ _) as [[[d h] evs']| |]; simpl;
    try discriminate.
  intros [= <-]. simpl. repeat split.
Qed.

Lemma poll_all_node_events (connection : option Connection)
  (txs : list RecentTransaction) :
  Forall (fun e => is_node_event e = true) (snd (poll_all connection txs)).
Proof.
  rewrite poll_all_map; simpl. apply Forall_forall. intros e Hin%list_elem_of_In.
  apply in_concat in Hin as (evs & Hevs & Hin).
  apply in_map_iff in Hevs as (u & <- & _).
  destruct (poll_entry_events connection u) as [Hnil|[_ Hev]].
  - rewrite Hnil in Hin. destruct Hin.
  - rewrite Hev in Hin. by destruct Hin as [<-|[]].
Qed.

Lemma ensure_connection_trace `{Host} (fuel : nat) (w : World) (c c1 : Controller) :
  ensure_connection fuel w c = Returned c1 ->
  exists evs,
    trace c1 = trace c ++ evs /\
    Forall (fun e => is_node_event e = true) evs.
Proof.
  unfold ensure_connection. destruct (activeConnection c).
  - intros [= <-]. exists []. by rewrite app_nil_r.
  - intros Hret.
    destruct (periodicViewStateUpdate_trace _ _ _ Hret) as [hashes Htrace].
    simpl in Htrace. eexists. split.
    + rewrite Htrace, <- app_assoc. reflexivity.
    + apply Forall_app. split; [by repeat constructor|].
      apply Forall_app. split; [apply poll_all_node_events|].
      apply Forall_forall. intros e Hin%list_elem_of_In.
      by apply in_map_iff in Hin as (k & <- & _).
Qed.

Lemma ensure_connection_frame `{Host} (fuel : nat) (w : World) (c c1 : Controller) :
  ensure_connection fuel w c = Returned c1 ->
  fileContents (viewState c1) = fileContents (viewState c) /\
  errorText (viewState c1) = errorText (viewState c) /\
  collapseTransactions (viewState c1) = collapseTransactions (viewState c) /\
  selectedTransactionId (viewState c1) = selectedTransactionId (viewState c) /\
  document c1 = document c /\
  isClosed c1 = isClosed c.
Proof.
  unfold ensure_connection. destruct (activeConnection c).
  - intros [= <-]. repeat split.
  - intros Hret.
    destruct (periodicViewStateUpdate_frame _ _ _ Hret)
      as (H1 & H2 & H3 & H4 & H5 & H6 & _).
    simpl in *. repeat split; assumption.
Qed.

(** X11: [runFile] starts the runner only when, connected or after
    connecting, the network is a Neo Express one and an account has been
    picked; it has then saved the document and expanded the list of
    transactions, and it passes the runner the configuration of the
    network, the path and the account.  It starts it at most once. *)
Theorem runFile_starts_runner_only_on_express `{Host}
  (fuel : nat) (w : World) (path : string) (c c' : Controller) (args : list string) :
  runFile fuel w path c = Returned c' ->
  In (EvRunSync args) (drop (length (trace c)) (trace c')) ->
  exists conn account,
    activeConnection c' = Some conn /\
    blockchainType (blockchainIdentifier conn) = "express"%string /\
    multipleChoice_result w = Some account /\
    account <> EmptyString /\
    args = invoke_args conn path account /\
    In EvDocumentSave (drop (length (trace c)) (trace c')) /\
    collapseTransactions (viewState c') = false /\
    length (filter (fun e => is_run_event e = true)
              (drop (length (trace c)) (trace c'))) = 1%nat.
Proof.
  unfold runFile.
  destruct (ensure_connection fuel w c) as [c1| |] eqn:Hens; simpl; try discriminate.
  destruct (ensure_connection_trace fuel w c c1 Hens) as (evs & Htrace & Hnode).
  assert (Hnorun : forall a, ~ In (EvRunSync a) evs).
  { intros a Hin%list_elem_of_In. rewrite Forall_forall in Hnode.
    by apply Hnode in Hin. }
  assert (Hfilter : filter (fun e => is_run_event e = true) evs = []).
  { clear -Hnode. induction evs as [|e evs IH]; [done|].
    apply Forall_cons in Hnode as [He Hnode].
    rewrite filter_cons, (IH Hnode).
    destruct (decide (is_run_event e = true)) as [Hrun|]; [|done].
    by destruct e. }
  assert (Hdrop : forall tail,
             drop (length (trace c)) ((trace c ++ evs) ++ tail) = evs ++ tail).
  { intros tail. by rewrite <- app_assoc, drop_app_length. }
  assert (Hrefused : forall e,
             is_run_event e = false -> e <> EvDocumentSave ->
             ~ In (EvRunSync args) (drop (length (trace c)) ((trace c ++ evs) ++ [e]))).
  { intros e He _. rewrite Hdrop. intros Hin.
    apply in_app_or in Hin as [Hin|[->|[]]]; [by apply Hnorun in Hin|discriminate]. }
  destruct (activeConnection c1) as [conn|] eqn:Hconn.
  - destruct (String.eqb_spec (blockchainType (blockchainIdentifier conn)) "express")
      as [Hexpress|_].
    + destruct (multipleChoice_result w) as [account|] eqn:Hchoice.
      * destruct (String.eqb_spec account EmptyString) as [_|Haccount].
        -- intros [= <-]. simpl. rewrite Htrace. intros Hin.
           by apply Hrefused in Hin.
        -- intros Hret Hin. exists conn, account.
           assert (exists tail,
                      trace c'
                      = (trace c ++ evs)
                        ++ [EvMultipleChoice "Select an account..."
                              ("genesis"%string
                               :: walletNames (blockchainIdentifier conn));
                            EvDocumentSave;
                            EvRunSync (invoke_args conn path account)] ++ tail
                      /\ Forall (fun e => is_run_event e = false) tail
                      /\ activeConnection c' = Some conn
                      /\ collapseTransactions (viewState c') = false)
             as (tail & Htr & Htail & Hc' & Hcoll).
           { destruct (isError (runSync_result w)); injection Hret as <-.
             - exists [EvShowErrorMessage (message (runSync_result w))]. simpl.
               rewrite Htrace, <- !app_assoc. repeat split; [|done].
               by repeat constructor.
             - exists []. simpl.
               rewrite Htrace, <- !app_assoc. repeat split; [|done].
               constructor. }
           assert (Hftail : filter (fun e => is_run_event e = true) tail = []).
           { clear -Htail. induction tail as [|e tail IH]; [done|].
             apply Forall_cons in Htail as [He Htail].
             rewrite filter_cons, (IH Htail).
             destruct (decide (is_run_event e = true)) as [Hrun|]; [|done].
             congruence. }
           rewrite Htr, Hdrop in Hin |- *.
           split; [done|]. split; [done|]. split; [done|]. split; [done|].
           split.
           ++ apply in_app_or in Hin as [Hin|Hin]; [by apply Hnorun in Hin|].
              destruct Hin as [Hin|[Hin|[Hin|Hin]]]; try discriminate.
              ** by injection Hin as <-.
              ** apply list_elem_of_In in Hin. rewrite Forall_forall in Htail.
                 by apply Htail in Hin.
           ++ split; [apply in_or_app; right; simpl; tauto|]. split; [done|].
              rewrite !filter_app, Hfilter, Hftail. reflexivity.
      * intros [= <-]. simpl. rewrite Htrace. intros Hin.
        by apply Hrefused in Hin.
    + intros [= <-]. simpl. rewrite Htrace. intros Hin.
      by apply Hrefused in Hin.
  - intros [= <-]. simpl. rewrite Htrace. intros Hin.
    by apply Hrefused in Hin.
Qed.

Lemma runFile_starts_runner_only_on_express_witness :
  let w := world None (Some "alice"%string) false "Invocation 0xa sent" in
  let c := connected_panel [] in
  let c' := returned_or c (runFile 3 w "/home/u/invoke.json" c) in
  exists conn account,
    activeConnection c' = Some conn /\
    blockchainType (blockchainIdentifier conn) = "express"%string /\
    multipleChoice_result w = Some account /\
    account <> EmptyString /\
    ["contract"; "invoke"; "-i"; "/home/u/default.neo-express";
     "/home/u/invoke.json"; "alice"]%string
    = invoke_args conn "/home/u/invoke.json" account.
Proof.
  intros w c c'.
  destruct (runFile_starts_runner_only_on_express (H := posix_host)
              3 w "/home/u/invoke.json" c c'
              ["contract"; "invoke"; "-i"; "/home/u/default.neo-express";
               "/home/u/invoke.json"; "alice"]%string)
    as (conn & account & H1 & H2 & H3 & H4 & H5 & _).
  - reflexivity.
  - simpl. tauto.
  - exists conn, account. repeat split; assumption.
Defined.

(** X12: [runFile] never touches the steps, the error text, the selected
    transaction or the document of the panel, and the only thing it does
    to the collapse flag is to clear it. *)
Theorem runFile_leaves_the_file_alone `{Host}
  (fuel : nat) (w : World) (path : string) (c c' : Controller) :
  runFile fuel w path c = Returned c' ->
  fileContents (viewState c') = fileContents (viewState c) /\
  errorText (viewState c') = errorText (viewState c) /\
  selectedTransactionId (viewState c') = selectedTransactionId (viewState c) /\
  document c' = document c /\
  isClosed c' = isClosed c /\
  (collapseTransactions (viewState c') = collapseTransactions (viewState c) \/
   collapseTransactions (viewState c') = false).
Proof.
  unfold runFile.
  destruct (ensure_connection fuel w c) as [c1| |] eqn:Hens; simpl; try discriminate.
  destruct (ensure_connection_frame fuel w c c1 Hens)
    as (Hfc & Het & Hcoll & Hsel & Hdoc & Hclosed).
  assert (Hsame : forall e,
             fileContents (viewState (emit [e] c1)) = fileContents (viewState c) /\
             errorText (viewState (emit [e] c1)) = errorText (viewState c) /\
             selectedTransactionId (viewState (emit [e] c1))
             = selectedTransactionId (viewState c) /\
             document (emit [e] c1) = document c /\
             isClosed (emit [e] c1) = isClosed c /\
             (collapseTransactions (viewState (emit [e] c1))
              = collapseTransactions (viewState c) \/
              collapseTransactions (viewState (emit [e] c1)) = false)).
  { intros e. simpl. repeat split; try assumption. by left. }
  destruct (activeConnection c1) as [conn|]; [|intros [= <-]; apply Hsame].
  destruct (String.eqb _ _); [|intros [= <-]; apply Hsame].
  destruct (multipleChoice_result w) as [account|]; [|intros [= <-]; apply Hsame].
  destruct (String.eqb account EmptyString); [intros [= <-]; apply Hsame|].
  destruct (isError (runSync_result w)); intros [= <-]; simpl;
    repeat split; try assumption; by right.
Qed.

Lemma runFile_leaves_the_file_alone_witness :
  let w := world None (Some "alice"%string) false "Invocation 0xa sent" in
  let c := panel (Some local_node) "[]" [step_calling "0xc1"] [] in
  let c' := returned_or c (runFile 3 w "/home/u/invoke.json" c) in
  fileContents (viewState c') = [step_calling "0xc1"] /\
  document c' = invoke_document "[]".
Proof.
  intros w c c'.
  destruct (runFile_leaves_the_file_alone (H := posix_host)
              3 w "/home/u/invoke.json" c c') as (Hfc & _ & _ & Hdoc & _).
  - reflexivity.
  - split; [exact Hfc | exact Hdoc].
Defined.

(** ** The ids read from the runner's output *)

Lemma hex_is_not_space (c : ascii) : is_hex c = true -> is_space c = false.
Proof. destruct c as [[] [] [] [] [] [] [] []]; vm_compute; congruence. Qed.


Lemma trim_start_rev_hex (ds : list ascii) (d : ascii) (tl : list ascii) :
  forallb is_hex (d :: ds) = true ->
  trim_start (rev (d :: ds) ++ tl) = rev (d :: ds) ++ tl.
Proof.
  intros Hhex.
  assert (Hlast : exists c rest, rev (d :: ds) = c :: rest /\ is_hex c = true).
  { destruct (rev (d :: ds)) as [|c rest] eqn:Hrev.
    - apply (f_equal (@length ascii)) in Hrev.
      rewrite length_rev in Hrev. discriminate.
    - exists c, rest. split; [done|].
      rewrite forallb_forall in Hhex. apply Hhex.
      apply in_rev. rewrite Hrev. by left. }
  destruct Hlast as (c & rest & -> & Hc). simpl.
  by rewrite (hex_is_not_space c Hc).
Qed.




(** ** The aliases made by [augmentAutoCompleteData] *)

Lemma dict_get_set_eq {V : Type} (k : string) (v : V) (d : list (string * V)) :
  dict_get k (dict_set k v d) = Some v.
Proof.
  induction d as [|[k' v'] d IH]; simpl.
  - by rewrite String.eqb_refl.
  - destruct (String.eqb k k') eqn:Hk; simpl; rewrite ?String.eqb_refl, ?Hk; done.
Qed.

Lemma dict_get_set_ne {V : Type} (k k' : string) (v : V) (d : list (string * V)) :
  k <> k' -> dict_get k (dict_set k' v d) = dict_get k d.
Proof.
  intros Hne. induction d as [|[k'' v''] d IH]; simpl.
  - by destruct (String.eqb_spec k k').
  - destruct (String.eqb_spec k' k'') as [<-|Hne']; simpl.
    + by destruct (String.eqb_spec k k').
    + destruct (String.eqb_spec k k''); [done|apply IH].
Qed.

Lemma dict_keys_set_in {V : Type} (k : string) (v : V) (d : list (string * V)) :
  In k (dict_keys d) -> dict_keys (dict_set k v d) = dict_keys d.
Proof.
  induction d as [|[k' v'] d IH]; simpl; [done|].
  destruct (String.eqb_spec k k') as [->|Hne]; simpl; [done|].
  intros [Heq|Hin]; [congruence|]. f_equal. by apply IH.
Qed.

Lemma dict_get_Some_keys {V : Type} (k : string) (v : V) (d : list (string * V)) :
  dict_get k d = Some v -> In k (dict_keys d).
Proof.
  induction d as [|[k' v'] d IH]; simpl; [done|].
  destruct (String.eqb_spec k k') as [->|Hne]; [by left|]. intros Hd. right. by apply IH.
Qed.

Section Aliases.
Context `{Host}.
Local Open Scope nat_scope.

Variables (h0 : Heap) (m : loc).

Lemma augmented_data P Hd :
  augmented h0 m P Hd !! length h0
  = Some (ObjData (length h0 + 1) (length h0 + 2) m).
Proof. unfold augmented. by rewrite lookup_app_r, Nat.sub_diag by lia. Qed.

Lemma augmented_paths P Hd :
  augmented h0 m P Hd !! (length h0 + 1) = Some (ObjPaths P).
Proof.
  unfold augmented. rewrite lookup_app_r by lia.
  by replace (length h0 + 1 - length h0) with 1 by lia.
Qed.

Lemma augmented_hashes P Hd :
  augmented h0 m P Hd !! (length h0 + 2) = Some (ObjHashes Hd).
Proof.
  unfold augmented. rewrite lookup_app_r by lia.
  by replace (length h0 + 2 - length h0) with 2 by lia.
Qed.

Lemma augmented_old P Hd l :
  l < length h0 -> augmented h0 m P Hd !! l = h0 !! l.
Proof. intros Hl. unfold augmented. by rewrite lookup_app_l. Qed.

Lemma augmented_set_hashes P Hd Hd' :
  <[length h0 + 2 := ObjHashes Hd']> (augmented h0 m P Hd) = augmented h0 m P Hd'.
Proof.
  unfold augmented. rewrite insert_app_r_alt by lia.
  by replace (length h0 + 2 - length h0) with 2 by lia.
Qed.

Lemma augmented_set_paths P P' Hd :
  <[length h0 + 1 := ObjPaths P']> (augmented h0 m P Hd) = augmented h0 m P' Hd.
Proof.
  unfold augmented. rewrite insert_app_r_alt by lia.
  by replace (length h0 + 1 - length h0) with 1 by lia.
Qed.

Lemma alias_loop_exact (baseHref : string) (fuel i : nat)
  (contractPaths : list string) P Hd :
  (forall p, path_isAbsolute (path_relative baseHref p) = false) ->
  length (drop i contractPaths) + absolute_count (drop i contractPaths) < fuel ->
  alias_loop fuel baseHref i contractPaths (length h0) (augmented h0 m P Hd)
  = Returned
      (contractPaths
       ++ map (path_relative baseHref)
            (filter (fun p => path_isAbsolute p = true) (drop i contractPaths)),
       augmented h0 m P
         (fold_left (alias_hash baseHref)
            (filter (fun p => path_isAbsolute p = true) (drop i contractPaths)) Hd)).
Proof.
  intros Hrel. revert i contractPaths Hd.
  induction fuel as [|fuel IH]; intros i arr Hd Hfuel; [lia|].
  simpl. destruct (arr !! i) as [p|] eqn:Hp.
  - pose proof (lookup_lt_Some _ _ _ Hp) as Hi.
    rewrite (drop_S _ _ _ Hp) in Hfuel |- *. unfold absolute_count in Hfuel.
    rewrite filter_cons in Hfuel |- *. simpl in Hfuel.
    destruct (path_isAbsolute p) eqn:Habs.
    + destruct (decide (true = true)) as [_|?]; [|done].
      rewrite (read_data_eq _ _ _ _ _ (augmented_data P Hd)). simpl.
      rewrite (read_hashes_eq _ _ _ (augmented_hashes P Hd)). simpl.
      rewrite augmented_set_hashes.
      assert (Hdrop : drop (S i) (arr ++ [path_relative baseHref p])
                      = drop (S i) arr ++ [path_relative baseHref p]).
      { by rewrite drop_app_le by lia. }
      assert (Hfil : filter (fun q => path_isAbsolute q = true)
                       (drop (S i) arr ++ [path_relative baseHref p])
                     = filter (fun q => path_isAbsolute q = true) (drop (S i) arr)).
      { rewrite filter_app, filter_cons, filter_nil.
        destruct (decide (path_isAbsolute (path_relative baseHref p) = true))
          as [Hyes|_]; [rewrite Hrel in Hyes; discriminate|].
        apply app_nil_r. }
      rewrite IH.
      * rewrite Hdrop, Hfil. simpl. by rewrite <- app_assoc.
      * rewrite Hdrop. unfold absolute_count. rewrite Hfil, length_app.
        simpl in *. lia.
    + destruct (decide (false = true)) as [?|_]; [discriminate|].
      apply IH. unfold absolute_count. lia.
  - rewrite drop_ge by (by apply lookup_ge_None). simpl. by rewrite app_nil_r.
Qed.

Lemma augment_hashes_exact (baseHref : string) (fuel : nat) (data p hs : loc)
  (dp : list (string * list string)) (keys : list string) P Hd :
  (forall q, path_isAbsolute (path_relative baseHref q) = false) ->
  h0 !! data = Some (ObjData p hs m) ->
  h0 !! p = Some (ObjPaths dp) ->
  (forall k paths, dict_get k dp = Some paths -> 2 * length paths < fuel) ->
  (forall k, In k keys -> In k (dict_keys dp)) ->
  augment_hashes fuel baseHref data (length h0) keys (augmented h0 m P Hd)
  = Returned
      (augmented h0 m
         (fold_left
            (fun P k =>
               dict_set k (dedupeAndSort (aliased baseHref (default [] (dict_get k dp)))) P)
            keys P)
         (fold_left (alias_hash baseHref) (absolute_paths dp keys) Hd)).
Proof.
  intros Hrel Hd0 Hp0 Hfuel.
  pose proof (lookup_lt_Some _ _ _ Hd0) as Hdlt.
  pose proof (lookup_lt_Some _ _ _ Hp0) as Hplt.
  revert P Hd. induction keys as [|k keys IH]; intros P Hd Hkeys; simpl; [done|].
  unfold augment_hash.
  rewrite (read_data_eq _ data p hs m) by (by rewrite augmented_old).
  simpl.
  rewrite (read_paths_eq _ p dp) by (by rewrite augmented_old).
  simpl.
  destruct (dict_get_keys k dp) as [paths Hpaths]; [apply Hkeys; by left|].
  rewrite Hpaths.
  rewrite alias_loop_exact; [|done|].
  2:{ rewrite drop_0. pose proof (absolute_count_le paths).
      specialize (Hfuel k paths Hpaths). lia. }
  simpl. rewrite drop_0.
  rewrite (read_data_eq _ _ _ _ _ (augmented_data _ _)). simpl.
  rewrite (read_paths_eq _ _ _ (augmented_paths _ _)). simpl.
  rewrite augmented_set_paths.
  rewrite IH by (intros k' Hk'; apply Hkeys; by right).
  unfold absolute_paths. simpl. rewrite Hpaths. simpl.
  by rewrite fold_left_app.
Qed.

Lemma augment_paths_exact (fuel : nat) (documentPath : string) (data : loc)
  (p hs : loc) (dp : list (string * list string)) (dh : list (string * option string)) :
  (forall q, path_isAbsolute (path_relative (path_dirname documentPath) q) = false) ->
  h0 !! data = Some (ObjData p hs m) ->
  h0 !! p = Some (ObjPaths dp) ->
  h0 !! hs = Some (ObjHashes dh) ->
  (forall k paths, dict_get k dp = Some paths -> 2 * length paths < fuel) ->
  augment_paths fuel documentPath data h0
  = Returned
      (length h0,
       augmented h0 m
         (fold_left
            (fun P k =>
               dict_set k
                 (dedupeAndSort
                    (aliased (path_dirname documentPath) (default [] (dict_get k dp)))) P)
            (dict_keys dp) dp)
         (fold_left (alias_hash (path_dirname documentPath))
            (absolute_paths dp (dict_keys dp)) dh)).
Proof.
  intros Hrel Hd Hp Hh Hfuel.
  pose proof (lookup_lt_Some _ _ _ Hd) as Hdlt.
  pose proof (lookup_lt_Some _ _ _ Hp) as Hplt.
  pose proof (lookup_lt_Some _ _ _ Hh) as Hhlt.
  unfold augment_paths, alloc.
  rewrite (read_data_eq _ _ _ _ _ Hd). simpl.
  set (hA := h0 ++ [ObjData p hs m]).
  assert (HlenA : length hA = length h0 + 1).
  { unfold hA. rewrite length_app. simpl. lia. }
  assert (HA : hA !! length h0 = Some (ObjData p hs m)).
  { unfold hA. by rewrite lookup_app_r, Nat.sub_diag by lia. }
  rewrite (read_data_eq _ _ _ _ _ HA). simpl.
  rewrite (read_paths_eq hA p dp) by (unfold hA; by rewrite lookup_app_l). simpl.
  assert (HB : <[length h0 := ObjData (length hA) hs m]> (hA ++ [ObjPaths dp])
               = h0 ++ [ObjData (length h0 + 1) hs m; ObjPaths dp]).
  { unfold hA. rewrite <- app_assoc, insert_app_r_alt by lia.
    rewrite Nat.sub_diag, length_app. simpl. reflexivity. }
  rewrite HB.
  set (hB := h0 ++ [ObjData (length h0 + 1) hs m; ObjPaths dp]).
  assert (HlenB : length hB = length h0 + 2).
  { unfold hB. rewrite length_app. simpl. lia. }
  assert (HBdata : hB !! length h0 = Some (ObjData (length h0 + 1) hs m)).
  { unfold hB. by rewrite lookup_app_r, Nat.sub_diag by lia. }
  rewrite (read_data_eq _ _ _ _ _ HBdata). simpl.
  rewrite (read_hashes_eq hB hs dh) by (unfold hB; by rewrite lookup_app_l). simpl.
  assert (HC : <[length h0 := ObjData (length h0 + 1) (length hB) m]>
                 (hB ++ [ObjHashes dh])
               = augmented h0 m dp dh).
  { unfold hB, augmented. rewrite <- app_assoc, insert_app_r_alt by lia.
    rewrite Nat.sub_diag, length_app. simpl. reflexivity. }
  rewrite HC.
  rewrite (read_data_eq _ data p hs m) by (by rewrite augmented_old). simpl.
  rewrite (read_paths_eq _ p dp) by (by rewrite augmented_old). simpl.
  rewrite (augment_hashes_exact _ fuel data p hs dp) by auto.
  reflexivity.
Qed.

End Aliases.

Section AliasDictionaries.
Context `{Host}.

Lemma fold_set_untouched {V : Type} (f : string -> V) (ks : list string)
  (k : string) (P : list (string * V)) :
  ~ In k ks ->
  dict_get k (fold_left (fun P k' => dict_set k' (f k') P) ks P) = dict_get k P.
Proof.
  revert P. induction ks as [|k' ks IH]; intros P Hnot; simpl; [done|].
  rewrite IH by (intros Hin; apply Hnot; by right).
  apply dict_get_set_ne. intros ->. apply Hnot. by left.
Qed.

Lemma fold_set_get {V : Type} (f : string -> V) (ks : list string)
  (k : string) (P : list (string * V)) :
  In k ks ->
  dict_get k (fold_left (fun P k' => dict_set k' (f k') P) ks P) = Some (f k).
Proof.
  revert P. induction ks as [|k' ks IH]; intros P Hin; simpl; [done|].
  destruct (in_dec string_dec k ks) as [Hks|Hks]; [by apply IH|].
  destruct Hin as [->|Hin]; [|done].
  rewrite fold_set_untouched by done. apply dict_get_set_eq.
Qed.

Lemma fold_set_keys {V : Type} (f : string -> V) (ks : list string)
  (P : list (string * V)) :
  (forall k, In k ks -> In k (dict_keys P)) ->
  dict_keys (fold_left (fun P k' => dict_set k' (f k') P) ks P) = dict_keys P.
Proof.
  revert P. induction ks as [|k' ks IH]; intros P Hks; simpl; [done|].
  assert (Hk' : In k' (dict_keys P)) by (apply Hks; by left).
  rewrite IH.
  - by apply dict_keys_set_in.
  - intros k Hk. rewrite dict_keys_set_in by done. apply Hks. by right.
Qed.

Variable baseHref : string.
Hypothesis relative_not_absolute :
  forall p, path_isAbsolute (path_relative baseHref p) = false.

Lemma fold_alias_absolute (Q : list string) (d : list (string * option string))
  (q : string) :
  path_isAbsolute q = true ->
  dict_get q (fold_left (alias_hash baseHref) Q d) = dict_get q d.
Proof.
  intros Hq. revert d. induction Q as [|x Q IH]; intros d; simpl; [done|].
  rewrite IH. unfold alias_hash. apply dict_get_set_ne.
  intros ->. by rewrite relative_not_absolute in Hq.
Qed.

Lemma fold_alias_relative (Q : list string) (d : list (string * option string))
  (q : string) :
  Forall (fun x => path_isAbsolute x = true) Q ->
  In q Q ->
  exists q',
    In q' Q /\ path_relative baseHref q' = path_relative baseHref q /\
    dict_get (path_relative baseHref q) (fold_left (alias_hash baseHref) Q d)
    = Some (default None (dict_get q' d)).
Proof.
  revert q. induction Q as [|x Q IH] using rev_ind; intros q Habs Hin; [done|].
  apply Forall_app in Habs as [HQ Hx]. apply Forall_cons in Hx as [Hx _].
  rewrite fold_left_app. simpl. unfold alias_hash at 1.
  destruct (string_dec (path_relative baseHref x) (path_relative baseHref q))
    as [Heq|Hne].
  - exists x. split; [apply in_or_app; right; by left|]. split; [done|].
    rewrite <- Heq, dict_get_set_eq. by rewrite fold_alias_absolute.
  - apply in_app_or in Hin as [Hin|[->|[]]]; [|done].
    destruct (IH q HQ Hin) as (q' & Hq' & Hrel & Hget).
    exists q'. split; [apply in_or_app; by left|]. split; [done|].
    rewrite dict_get_set_ne by congruence. exact Hget.
Qed.

Lemma absolute_paths_absolute (dp : list (string * list string)) (keys : list string) :
  Forall (fun x => path_isAbsolute x = true) (absolute_paths dp keys).
Proof.
  apply Forall_forall. intros q Hin%list_elem_of_In.
  apply in_concat in Hin as (l & Hl & Hin).
  apply in_map_iff in Hl as (k & <- & _).
  apply list_elem_of_In, list_elem_of_filter in Hin. tauto.
Qed.

Lemma absolute_paths_in (dp : list (string * list string)) (keys : list string)
  (k : string) (paths : list string) (q : string) :
  In k keys -> dict_get k dp = Some paths -> In q paths ->
  path_isAbsolute q = true ->
  In q (absolute_paths dp keys).
Proof.
  intros Hk Hpaths Hq Habs. apply in_concat.
  exists (filter (fun p => path_isAbsolute p = true) paths). split.
  - apply in_map_iff. exists k. by rewrite Hpaths.
  - apply list_elem_of_In, list_elem_of_filter. split; [done|].
    by apply list_elem_of_In.
Qed.

End AliasDictionaries.

(** X14: what the first half of [augmentAutoCompleteData] builds.  The
    store it leaves is the one it found with three objects behind it:
    the copy and its own two dictionaries.  The copy has the keys of the
    base contract paths; under each key are the paths of the base with
    the document-relative alias of every absolute one added, passed
    through [dedupeAndSort].  Its contract hashes keep what the base has
    for every absolute path, and have under the alias of an absolute
    path what the base has under an absolute path with that alias. *)
Theorem augment_paths_adds_aliases `{Host}
  (fuel : nat) (documentPath : string) (h : Heap) (data p hs m : loc)
  (dp : list (string * list string)) (dh : list (string * option string)) :
  (forall q, path_isAbsolute (path_relative (path_dirname documentPath) q) = false) ->
  h !! data = Some (ObjData p hs m) ->
  h !! p = Some (ObjPaths dp) ->
  h !! hs = Some (ObjHashes dh) ->
  (forall k paths, dict_get k dp = Some paths -> (2 * length paths < fuel)%nat) ->
  let baseHref := path_dirname documentPath in
  exists paths' hashes',
    augment_paths fuel documentPath data h
    = Returned (length h, augmented h m paths' hashes') /\
    dict_keys paths' = dict_keys dp /\
    (forall k paths, dict_get k dp = Some paths ->
       dict_get k paths' = Some (dedupeAndSort (aliased baseHref paths))) /\
    (forall q, path_isAbsolute q = true -> dict_get q hashes' = dict_get q dh) /\
    (forall k paths q, dict_get k dp = Some paths -> In q paths ->
       path_isAbsolute q = true ->
       exists q',
         path_isAbsolute q' = true /\
         path_relative baseHref q' = path_relative baseHref q /\
         dict_get (path_relative baseHref q) hashes'
         = Some (default None (dict_get q' dh))).
Proof.
  intros Hrel Hd Hp Hh Hfuel baseHref.
  eexists _, _. split.
  { apply (augment_paths_exact h m fuel documentPath data p hs dp dh); assumption. }
  fold baseHref. split; [|split; [|split]].
  - by apply fold_set_keys.
  - intros k paths Hk.
    rewrite (fold_set_get
               (fun k => dedupeAndSort (aliased baseHref (default [] (dict_get k dp)))))
      by (by apply (dict_get_Some_keys k paths)).
    by rewrite Hk.
  - intros q Hq. by apply fold_alias_absolute.
  - intros k paths q Hk Hq Habs.
    destruct (fold_alias_relative baseHref Hrel (absolute_paths dp (dict_keys dp)) dh q)
      as (q' & Hq' & Hsame & Hget).
    + apply absolute_paths_absolute.
    + apply (absolute_paths_in dp (dict_keys dp) k paths q); try done.
      by apply (dict_get_Some_keys k paths).
    + exists q'. split; [|by split].
      pose proof (absolute_paths_absolute dp (dict_keys dp)) as Hall.
      rewrite Forall_forall in Hall. by apply Hall, list_elem_of_In.
Qed.

Lemma augment_paths_adds_aliases_witness :
  exists paths' hashes',
    augment_paths 3 "/home/u/invoke.json" 0%nat base_heap
    = Returned (4%nat, augmented base_heap 3%nat paths' hashes') /\
    dict_keys paths' = ["0xc1"%string] /\
    dict_get "0xc1" paths'
    = Some ["/home/u/contracts/token.nef"; "contracts/token.nef"]%string /\
    dict_get "/home/u/contracts/token.nef" hashes' = Some (Some "0xc1"%string).
Proof.
  destruct (augment_paths_adds_aliases (H := posix_host)
              3 "/home/u/invoke.json" base_heap 0%nat 1%nat 2%nat 3%nat
              [("0xc1"%string, ["/home/u/contracts/token.nef"%string])]
              [("/home/u/contracts/token.nef"%string, Some "0xc1"%string)])
    as (paths' & hashes' & Hret & Hkeys & Hpaths & Hkept & _).
  - intros q. apply posix_relative_not_absolute.
  - reflexivity.
  - reflexivity.
  - reflexivity.
  - intros k paths. simpl.
    destruct (String.eqb k "0xc1"); [|discriminate].
    intros [= <-]. simpl. lia.
  - exists paths', hashes'. split; [exact Hret|]. split; [exact Hkeys|]. split.
    + rewrite (Hpaths "0xc1"%string ["/home/u/contracts/token.nef"%string] eq_refl).
      reflexivity.
    + rewrite (Hkept "/home/u/contracts/token.nef"%string eq_refl). reflexivity.
Defined.

(** X15: without an RPC client [augmentAutoCompleteData] asks the node
    nothing and changes no object of the store it is given, the
    manifests of its argument included: it only adds the copy and the
    copy's two dictionaries. *)
Theorem augment_without_client_is_pure `{Host}
  (fuel : nat) (c : Controller) (data p hs m : loc)
  (dp : list (string * list string)) (dh : list (string * option string)) :
  (forall q,
      path_isAbsolute (path_relative (path_dirname (fsPath (document c))) q) = false) ->
  heap c !! data = Some (ObjData p hs m) ->
  heap c !! p = Some (ObjPaths dp) ->
  heap c !! hs = Some (ObjHashes dh) ->
  (forall k paths, dict_get k dp = Some paths -> (2 * length paths < fuel)%nat) ->
  no_client (activeConnection c) = true ->
  exists h1,
    augmentAutoCompleteData fuel c data = Returned (length (heap c), h1, []) /\
    length h1 = (length (heap c) + 3)%nat /\
    forall l, (l < length (heap c))%nat -> h1 !! l = heap c !! l.
Proof.
  intros Hrel Hd Hp Hh Hfuel Hno.
  eexists. split; [|split].
  - unfold augmentAutoCompleteData.
    rewrite (augment_paths_exact (heap c) m fuel _ data p hs dp dh) by assumption.
    simpl. by destruct (activeConnection c) as [[bi [rpc|]]|].
  - unfold augmented. rewrite length_app. simpl. lia.
  - intros l Hl. by apply augmented_old.
Qed.

Lemma augment_without_client_is_pure_witness :
  let c := panel None "[]" [step_calling "0xc1"] [] in
  exists h1,
    augmentAutoCompleteData 3 c 0%nat = Returned (4%nat, h1, []) /\
    h1 !! 3%nat = Some (ObjManifests []).
Proof.
  intros c.
  destruct (augment_without_client_is_pure (H := posix_host)
              3 c 0%nat 1%nat 2%nat 3%nat
              [("0xc1"%string, ["/home/u/contracts/token.nef"%string])]
              [("/home/u/contracts/token.nef"%string, Some "0xc1"%string)])
    as (h1 & Hret & _ & Hold).
  - intros q. apply posix_relative_not_absolute.
  - reflexivity.
  - reflexivity.
  - reflexivity.
  - intros k paths. simpl.
    destruct (String.eqb k "0xc1"); [|discriminate].
    intros [= <-]. simpl. lia.
  - reflexivity.
  - exists h1. split; [exact Hret|]. rewrite Hold by (simpl; lia). reflexivity.
Defined.

Lemma filter_hex_contract_throws (steps : list JSValue) (step : JSValue) :
  In step steps -> has_hex_contract step = Thrown ->
  filter_hex_contract steps = Thrown.
Proof.
  induction steps as [|s steps IH]; simpl; [done|].
  intros [->|Hin] Hthrows.
  - by rewrite Hthrows.
  - destruct (has_hex_contract s) as [keep| |] eqn:Hs; simpl; try done.
    + by rewrite IH.
    + exfalso. clear -Hs. unfold has_hex_contract in Hs.
      by destruct (get_prop s "contract") as [[]|].
Qed.

(** X16: while a connection with an RPC client is active, a step that
    is [null] or [undefined], or whose [contract] is neither absent nor a
    string, makes every poll cycle throw: [periodicViewStateUpdate] does
    not return, and the view state gets neither the polled transactions
    nor new completion data. *)
Theorem malformed_step_stops_poll_cycle `{Host}
  (fuel : nat) (c : Controller) (conn : Connection) (rpc : RpcClient)
  (step : JSValue) :
  activeConnection c = Some conn ->
  rpcClient conn = Some rpc ->
  In step (fileContents (viewState c)) ->
  has_hex_contract step = Thrown ->
  (forall c', periodicViewStateUpdate fuel c <> Returned c') /\
  (forall result h,
      augment_paths fuel (fsPath (document c)) (autoComplete c) (heap c)
      = Returned (result, h) ->
      periodicViewStateUpdate fuel c = Thrown).
Proof.
  intros Hconn Hrpc Hin Hthrows.
  assert (Haug : forall result h,
             augment_paths fuel (fsPath (document c)) (autoComplete c) (heap c)
             = Returned (result, h) ->
             periodicViewStateUpdate fuel c = Thrown).
  { intros result h Hpaths. unfold periodicViewStateUpdate.
    destruct (poll_all _ _) as [txs evs]. simpl.
    unfold augmentAutoCompleteData. simpl. rewrite Hpaths. simpl.
    rewrite Hconn. destruct conn as [bi r]. simpl in Hrpc. subst r.
    unfold contract_hashes.
    by rewrite (filter_hex_contract_throws _ step Hin Hthrows). }
  split; [|exact Haug].
  intros c' Hret.
  destruct (augment_paths fuel (fsPath (document c)) (autoComplete c) (heap c))
    as [[result h]| |] eqn:Hpaths.
  - rewrite (Haug result h eq_refl) in Hret. discriminate.
  - revert Hret. unfold periodicViewStateUpdate.
    destruct (poll_all _ _) as [txs evs]. simpl.
    unfold augmentAutoCompleteData. simpl. by rewrite Hpaths.
  - revert Hret. unfold periodicViewStateUpdate.
    destruct (poll_all _ _) as [txs evs]. simpl.
    unfold augmentAutoCompleteData. simpl. by rewrite Hpaths.
Qed.

Lemma malformed_step_stops_poll_cycle_witness :
  let c := onFileUpdate (panel (Some local_node) "[null]" [] [submitted "0xab"]) in
  fileContents (viewState c) = [JSNull] /\
  periodicViewStateUpdate 3 c = Thrown.
Proof.
  intros c. split; [reflexivity|].
  destruct (malformed_step_stops_poll_cycle (H := posix_host)
              3 c local_node (node_with_token (Some halt_confirmed)) JSNull)
    as (_ & Hthrown).
  - reflexivity.
  - reflexivity.
  - by left.
  - reflexivity.
  - eapply Hthrown. reflexivity.
Defined.

(** ** [onFileUpdate] again *)

(** X17: [onFileUpdate] changes nothing but the steps and the error text
    of the view state, and running it a second time on the same document
    changes nothing at all. *)
Theorem onFileUpdate_idempotent `{Host} (c : Controller) :
  onFileUpdate (onFileUpdate c) = onFileUpdate c /\
  recentTransactions (viewState (onFileUpdate c)) = recentTransactions (viewState c) /\
  autoCompleteData (viewState (onFileUpdate c)) = autoCompleteData (viewState c) /\
  collapseTransactions (viewState (onFileUpdate c))
  = collapseTransactions (viewState c) /\
  selectedTransactionId (viewState (onFileUpdate c))
  = selectedTransactionId (viewState c) /\
  document (onFileUpdate c) = document c /\
  activeConnection (onFileUpdate c) = activeConnection c /\
  heap (onFileUpdate c) = heap c /\
  trace (onFileUpdate c) = trace c.
Proof.
  unfold onFileUpdate at 2 3 4 5 6 7 8 9 10 11.
  destruct (isClosed c) eqn:Hclosed.
  - unfold onFileUpdate. rewrite Hclosed. repeat split.
  - destruct (getText (document c)) as [text|] eqn:Htext.
    + destruct (JSONC_parse _) as [parsed|] eqn:Hparse;
        (split; [|repeat split]);
        unfold onFileUpdate; simpl; by rewrite Hclosed, Htext, Hparse.
    + split; [|repeat split].
      unfold onFileUpdate; simpl. by rewrite Hclosed, Htext.
Qed.

(** ** A runner that prints the id alone *)

Lemma span_hex_app (ds : list ascii) (c : ascii) (rest : list ascii) :
  forallb is_hex ds = true -> is_hex c = false ->
  span_hex (ds ++ c :: rest) = (ds, c :: rest).
Proof.
  intros Hds Hc. induction ds as [|d ds IH]; simpl.
  - by rewrite Hc.
  - simpl in Hds. apply andb_true_iff in Hds as [Hd Hds].
    by rewrite Hd, (IH Hds).
Qed.

Lemma matchAll_from_skip_all (skip : nat) (s : list ascii) :
  (length s <= skip)%nat -> matchAll_from skip s = [].
Proof.
  revert skip. induction s as [|c s IH]; intros skip Hlen; [done|].
  simpl in Hlen. destruct skip as [|k]; [lia|].
  cbn [matchAll_from]. apply IH. lia.
Qed.

Lemma chars_app (a b : string) : chars (a ++ b) = chars a ++ chars b.
Proof.
  unfold chars. induction a as [|c a IH]; simpl; [done|]. by rewrite IH.
Qed.

(** X18: a runner message that is nothing but a transaction id, ["0x"]
    or ["0X"] and hex digits, is read as that one id. *)
Theorem lone_id_is_extracted (id : string) :
  is_txid (chars id) = true -> extract_txids id = [id].
Proof.
  intros Hid. unfold extract_txids.
  assert (Hchars : chars (" " ++ id ++ " ") = " "%char :: chars id ++ [" "%char]).
  { by rewrite !chars_app. }
  rewrite Hchars.
  destruct (chars id) as [|z [|x [|d ds]]] eqn:Hc; try discriminate.
  unfold is_txid in Hid.
  apply andb_true_iff in Hid as [Hzx Hhex].
  apply andb_true_iff in Hzx as [Hz Hx].
  apply Ascii.eqb_eq in Hz. subst z.
  assert (Hmatch : match_txid_at (" "%char :: ("0"%char :: x :: d :: ds) ++ [" "%char])
                   = Some (" "%char :: "0"%char :: x :: d :: ds ++ [" "%char])).
  { cbn [match_txid_at app]. rewrite Hx.
    change (is_space " " && ("0" =? "0")%char && true) with true. cbv iota.
    change (d :: ds ++ [" "%char]) with ((d :: ds) ++ " "%char :: []).
    rewrite (span_hex_app (d :: ds) " " [] Hhex eq_refl).
    reflexivity. }
  cbn [matchAll_from]. rewrite Hmatch.
  rewrite matchAll_from_skip_all by (simpl; lia).
  simpl map. f_equal.
  assert (Htrim : trim_chars (" "%char :: "0"%char :: x :: d :: ds ++ [" "%char])
                  = "0"%char :: x :: d :: ds).
  { unfold trim_chars.
    assert (H1 : trim_start (" "%char :: "0"%char :: x :: d :: ds ++ [" "%char])
                 = "0"%char :: x :: d :: ds ++ [" "%char]) by reflexivity.
    assert (H2 : rev ("0"%char :: x :: d :: ds ++ [" "%char])
                 = " "%char :: rev (d :: ds) ++ [x; "0"%char]).
    { change ("0"%char :: x :: d :: ds ++ [" "%char])
        with (["0"%char; x] ++ (d :: ds) ++ [" "%char]).
      rewrite !rev_app_distr. reflexivity. }
    rewrite H1, H2. cbn [trim_start].
    change (is_space " ") with true. cbv iota.
    rewrite (trim_start_rev_hex ds d _ Hhex).
    rewrite rev_app_distr, rev_involutive. reflexivity. }
  rewrite Htrim, <- Hc. unfold chars. apply string_of_list_ascii_of_string.
Qed.

Lemma lone_id_is_extracted_witness :
  extract_txids "0x7Fa3" = ["0x7Fa3"%string].
Proof. apply (lone_id_is_extracted "0x7Fa3"). reflexivity. Defined.

(** * Properties of [NeoExpressCommands] *)

(** ** Labels and [parseInt] *)

Lemma digit_is_plain (c : ascii) :
  is_digit c = true ->
  is_space c = false /\
  Ascii.eqb c "-" = false /\ Ascii.eqb c "+" = false /\
  Ascii.eqb c "x" || Ascii.eqb c "X" = false.
Proof. destruct c as [[] [] [] [] [] [] [] []]; vm_compute; intuition congruence. Qed.

Lemma uint_chars_digits (d : Decimal.uint) :
  forallb is_digit (chars (DecimalString.NilEmpty.string_of_uint d)) = true.
Proof. induction d; simpl; try done; by rewrite IHd. Qed.

Lemma span_digits_uint (d : Decimal.uint) (acc : nat) (rest : list ascii) :
  match rest with c :: _ => is_digit c = false | [] => True end ->
  span_digits (chars (DecimalString.NilEmpty.string_of_uint d) ++ rest) (Z.of_nat acc)
  = (Z.of_nat (Nat.of_uint_acc d acc), rest).
Proof.
  intros Hrest. revert acc.
  induction d as [|d IH|d IH|d IH|d IH|d IH|d IH|d IH|d IH|d IH|d IH];
    intros acc;
    cbn [DecimalString.NilEmpty.string_of_uint chars list_ascii_of_string app
         Nat.of_uint_acc];
    [ destruct rest as [|c rest]; simpl; [done|]; by rewrite Hrest
    | cbn [span_digits]; change (is_digit _) with true; cbv iota;
      rewrite <- IH; f_equal; rewrite Nat.tail_mul_spec;
      change (nat_of_ascii _ - 48)%nat with 0%nat
      || change (nat_of_ascii _ - 48)%nat with 1%nat
      || change (nat_of_ascii _ - 48)%nat with 2%nat
      || change (nat_of_ascii _ - 48)%nat with 3%nat
      || change (nat_of_ascii _ - 48)%nat with 4%nat
      || change (nat_of_ascii _ - 48)%nat with 5%nat
      || change (nat_of_ascii _ - 48)%nat with 6%nat
      || change (nat_of_ascii _ - 48)%nat with 7%nat
      || change (nat_of_ascii _ - 48)%nat with 8%nat
      || change (nat_of_ascii _ - 48)%nat with 9%nat;
      lia .. ].
Qed.

Lemma decimal_first_digit (n : nat) :
  exists d ds, chars (decimal n) = d :: ds /\ forallb is_digit (d :: ds) = true.
Proof.
  pose proof (uint_chars_digits (Nat.to_uint n)) as Hdigits.
  fold (decimal n) in Hdigits.
  destruct (chars (decimal n)) as [|d ds] eqn:Hc; [|eauto].
  exfalso.
  pose proof (span_digits_uint (Nat.to_uint n) 0 [] I) as Hspan.
  fold (decimal n) in Hspan. rewrite Hc in Hspan. simpl in Hspan.
  injection Hspan as Hzero.
  change (Nat.of_uint_acc (Nat.to_uint n) 0) with (Nat.of_uint (Nat.to_uint n)) in Hzero.
  rewrite DecimalNat.Unsigned.of_to in Hzero.
  assert (n = 0%nat) as -> by lia. discriminate Hc.
Qed.

(** [parseInt] reads back the index a node label starts with:
    [parseInt(`${i} - ${name}`)] is [i], whatever the name. *)
Lemma parseInt_label_index (i : nat) (name : string) :
  parseInt (decimal i ++ " - " ++ name) = Some (Z.of_nat i).
Proof.
  destruct (decimal_first_digit i) as (d & ds & Hc & Hdigits).
  unfold parseInt. rewrite chars_app, Hc.
  change (chars (" - " ++ name)) with (" "%char :: "-"%char :: " "%char :: chars name).
  pose proof Hdigits as Hall. cbn [forallb] in Hdigits.
  apply andb_true_iff in Hdigits as [Hd Hds].
  destruct (digit_is_plain d Hd) as (Hsp & Hminus & Hplus & _).
  cbn [app trim_start]. rewrite Hsp.
  assert (Hvalue : fst (span_digits (d :: ds ++ " "%char :: "-"%char :: " "%char
                                       :: chars name) 0)
                   = Z.of_nat i).
  { pose proof (span_digits_uint (Nat.to_uint i) 0
                  (" "%char :: "-"%char :: " "%char :: chars name) eq_refl) as Hspan.
    fold (decimal i) in Hspan. rewrite Hc in Hspan.
    change (Z.of_nat 0) with 0 in Hspan. cbn [app] in Hspan. rewrite Hspan.
    change (Nat.of_uint_acc (Nat.to_uint i) 0) with (Nat.of_uint (Nat.to_uint i)).
    by rewrite DecimalNat.Unsigned.of_to. }
  assert (Hsign : match d :: ds ++ " "%char :: "-"%char :: " "%char :: chars name with
                  | "-"%char :: r => (-1, r)
                  | "+"%char :: r => (1, r)
                  | _ => (1, d :: ds ++ " "%char :: "-"%char :: " "%char :: chars name)
                  end
                  = (1, d :: ds ++ " "%char :: "-"%char :: " "%char :: chars name)).
  { apply Ascii.eqb_neq in Hminus, Hplus.
    destruct d as [[] [] [] [] [] [] [] []]; try reflexivity; congruence. }
  rewrite Hsign.
  assert (Hsecond : forall x r,
             ds ++ " "%char :: "-"%char :: " "%char :: chars name = x :: r ->
             Ascii.eqb x "x" || Ascii.eqb x "X" = false).
  { intros x r Heq. destruct ds as [|d' ds']; simpl in Heq.
    - by injection Heq as <- _.
    - injection Heq as <- _. cbn [forallb] in Hds.
      apply andb_true_iff in Hds as [Hd' _].
      by destruct (digit_is_plain d' Hd') as (_ & _ & _ & Hx). }
  destruct (ds ++ " "%char :: "-"%char :: " "%char :: chars name) as [|x r] eqn:Hrest.
  { by destruct ds. }
  rewrite Hd, Hvalue, (Hsecond x r eq_refl).
  destruct d as [[] [] [] [] [] [] [] []]; f_equal; lia.
Qed.

(** ** [run] *)

Lemma at_index_lookup {B : Type} (f : B -> list NeoExpressCommands.Event)
  (l : list B) (n : nat) :
  (fix at_index (l : list B) (n : nat) : list NeoExpressCommands.Event :=
     match l, n with
     | child :: _, O => f child
     | _ :: l', S n' => at_index l' n'
     | [], _ => []
     end) l n
  = match l !! n with Some child => f child | None => [] end.
Proof.
  revert n. induction l as [|x l IH]; intros [|n]; simpl; try done.
Qed.

Lemma node_label_not_empty (child : NeoExpressCommands.BlockchainIdentifier) (i : nat) :
  NeoExpressCommands.node_label child (Z.of_nat i)
  = (decimal i ++ " - " ++ NeoExpressCommands.name child)%string /\
  String.eqb (NeoExpressCommands.node_label child (Z.of_nat i)) EmptyString = false.
Proof.
  assert (Hlabel : NeoExpressCommands.node_label child (Z.of_nat i)
                   = (decimal i ++ " - " ++ NeoExpressCommands.name child)%string).
  { unfold NeoExpressCommands.node_label, number_to_string.
    destruct (Z.ltb_spec (Z.of_nat i) 0); [lia|]. by rewrite Nat2Z.id. }
  split; [exact Hlabel|]. rewrite Hlabel.
  destruct (decimal_first_digit i) as (d & ds & Hc & _).
  destruct (decimal i) as [|a s]; [discriminate Hc|]. reflexivity.
Qed.

(** X19: at a node with several children [run] offers one label per
    child, and when the user picks the label of the child at [i] it goes
    on with that child: the index is read back from the label. *)
Theorem run_follows_picked_label (user : NeoExpressCommands.User)
  (identifer child : NeoExpressCommands.BlockchainIdentifier) (i : nat) :
  NeoExpressCommands.context identifer = "nxp3"%string ->
  (2 <= length (NeoExpressCommands.children identifer))%nat ->
  NeoExpressCommands.children identifer !! i = Some child ->
  NeoExpressCommands.multipleChoice user "Select a node"
    (map_index NeoExpressCommands.node_label (NeoExpressCommands.children identifer))
  = Some (NeoExpressCommands.node_label child (Z.of_nat i)) ->
  NeoExpressCommands.run user identifer
  = NeoExpressCommands.EvMultipleChoice "Select a node"
      (map_index NeoExpressCommands.node_label (NeoExpressCommands.children identifer))
    :: NeoExpressCommands.run user child.
Proof.
  destruct identifer as [ctx nm cfg idx kids ws]. simpl.
  intros -> Hlen Hchild Hpick.
  destruct kids as [|c1 [|c2 kids]]; simpl in Hlen; try lia.
  destruct (node_label_not_empty child i) as [Hlabel Hnonempty].
  cbn [NeoExpressCommands.run]. change (negb ("nxp3" =? "nxp3")%string) with false.
  cbv iota. f_equal. rewrite Hpick.
  unfold NeoExpressCommands.no_answer. rewrite Hnonempty. cbn [default].
  unfold id. rewrite Hlabel, parseInt_label_index.
  destruct (Z.ltb_spec (Z.of_nat i) 0); [lia|].
  rewrite Nat2Z.id. destruct i as [|[|n]]; simpl in Hchild.
  - by injection Hchild as ->.
  - by injection Hchild as ->.
  - rewrite (at_index_lookup (NeoExpressCommands.run user)). by rewrite Hchild.
Qed.

Lemma run_follows_picked_label_witness :
  NeoExpressCommands.run (user_picking 1 None) two_node_network
  = [NeoExpressCommands.EvMultipleChoice "Select a node" ["0 - node-a"; "1 - node-b"]%string;
     NeoExpressCommands.terminal_start (leaf_node "node-b" 1)].
Proof.
  rewrite (run_follows_picked_label (user_picking 1 None) two_node_network
             (leaf_node "node-b" 1) 1).
  - reflexivity.
  - reflexivity.
  - simpl. lia.
  - reflexivity.
  - reflexivity.
Defined.

(** X20: one call of [run] starts at most one terminal, and only for a
    node without children, with context ["nxp3"], that is the identifier
    itself or lies below it; the terminal gets that node's name,
    configuration path and index. *)
Theorem run_starts_one_leaf_at_most (user : NeoExpressCommands.User)
  (identifer : NeoExpressCommands.BlockchainIdentifier) :
  let started :=
    filter (fun e => NeoExpressCommands.is_terminal_start e = true)
      (NeoExpressCommands.run user identifer) in
  started = [] \/
  exists leaf,
    NeoExpressCommands.reaches identifer leaf /\
    NeoExpressCommands.children leaf = [] /\
    NeoExpressCommands.context leaf = "nxp3"%string /\
    started = [NeoExpressCommands.terminal_start leaf].
Proof.
  induction identifer as [[ctx nm cfg idx kids ws] IH] using identifier_rect_nested.
  simpl in IH. cbn zeta.
  assert (Hchild : forall child,
             In child kids ->
             filter (fun e => NeoExpressCommands.is_terminal_start e = true)
               (NeoExpressCommands.run user child) = [] \/
             exists leaf,
               NeoExpressCommands.reaches
                 (NeoExpressCommands.Build_BlockchainIdentifier ctx nm cfg idx kids ws)
                 leaf /\
               NeoExpressCommands.children leaf = [] /\
               NeoExpressCommands.context leaf = "nxp3"%string /\
               filter (fun e => NeoExpressCommands.is_terminal_start e = true)
                 (NeoExpressCommands.run user child)
               = [NeoExpressCommands.terminal_start leaf]).
  { intros child Hin. rewrite Forall_forall in IH.
    destruct (IH child) as [Hnone|(leaf & Hreach & Hleaf & Hctx & Hone)];
      [by apply list_elem_of_In|by left|].
    right. exists leaf. split; [|done].
    by apply (NeoExpressCommands.reaches_child _ child). }
  cbn [NeoExpressCommands.run].
  destruct (String.eqb_spec ctx "nxp3") as [->|Hne]; cbn [negb]; [|by left].
  destruct kids as [|c1 [|c2 kids]].
  - right. eexists. split; [apply NeoExpressCommands.reaches_self|]. by repeat split.
  - apply Hchild. by left.
  - rewrite filter_cons.
    destruct (decide _) as [Hyes|_]; [discriminate Hyes|].
    destruct (NeoExpressCommands.no_answer _); [by left|].
    destruct (parseInt _) as [selectedIndex|]; [|by left].
    destruct (selectedIndex <? 0); [by left|].
    destruct (Z.to_nat selectedIndex) as [|[|n]].
    + apply Hchild. by left.
    + apply Hchild. right. by left.
    + rewrite (at_index_lookup (NeoExpressCommands.run user)).
      destruct (kids !! n) as [child|] eqn:Hl; [|by left].
      apply Hchild. right. right.
      by apply list_elem_of_In, (list_elem_of_lookup_2 _ n).
Qed.

(** ** [transfer] *)



